(** * A shallow embedding of the hospital microgrid simulator

    Python floats are modelled as exact rationals [Q]; Python ints as [Z];
    strings as [String.string]; an absent dictionary entry ([dict.get]
    returning [None]) as [option].  Stateful objects become records that are
    threaded explicitly through the functions that mutate them. *)

From Stdlib Require Import QArith Qabs ZArith String List Bool Lia Lqa Btauto.
Import ListNotations.
Open Scope Q_scope.
Open Scope string_scope.

(** ** Numeric helpers mirroring Python's [min], [max], [<], [<=]. *)

Definition qle (a b : Q) : bool := Qle_bool a b.
Definition qlt (a b : Q) : bool := negb (Qle_bool b a).
(** Python [min(a, b)] / [max(a, b)]. *)
Definition qmin (a b : Q) : Q := if qlt b a then b else a.
Definition qmax (a b : Q) : Q := if qlt a b then b else a.

(** ** components/battery.py *)

Record Battery := mkBattery {
  capacity : Q;
  soc : Q;
  max_charge_kw : Q;
  max_discharge_kw : Q
}.

Definition with_soc (b : Battery) (s : Q) : Battery :=
  mkBattery (capacity b) s (max_charge_kw b) (max_discharge_kw b).

(** [Battery.charge(power_kw, dt)]: returns the energy and the new battery. *)
Definition charge (b : Battery) (power_kw dt : Q) : Q * Battery :=
  let energy := qmin power_kw (max_charge_kw b) * dt in
  let soc' := qmin 1 (soc b + energy / capacity b) in
  (energy, with_soc b soc').

(** [Battery.discharge(power_kw, dt, min_soc)]. *)
Definition discharge (b : Battery) (power_kw dt min_soc_arg : Q) : Q * Battery :=
  let energy := qmin power_kw (max_discharge_kw b) * dt in
  let min_soc := qmax 0 (qmin 1 min_soc_arg) in
  let available_total := soc b * capacity b in
  let reserve := min_soc * capacity b in
  let available := qmax 0 (available_total - reserve) in
  let actual := qmin energy available in
  let soc' := qmax min_soc (soc b - actual / capacity b) in
  (actual, with_soc b soc').

(** ** controller/microgrid_controller.py *)

Inductive SystemState := NORMAL | STRESSED | EMERGENCY | SAFE_MODE.

Definition state_value (s : SystemState) : string :=
  match s with
  | NORMAL => "NORMAL"
  | STRESSED => "STRESSED"
  | EMERGENCY => "EMERGENCY"
  | SAFE_MODE => "SAFE_MODE"
  end.

(** The decision dictionary returned by [decide]. *)
Record Decision := mkDecision {
  generator_cmd : string;
  battery_mode : string;
  load_shed_level : Z;
  state : string;
  safe_mode : bool;
  reason : string
}.

Definition SOC_NORMAL_MIN : Q := 70 # 100.
Definition SOC_STRESSED_MIN : Q := 60 # 100.
Definition SOC_EMERGENCY_MIN : Q := 40 # 100.
Definition SOC_ABSOLUTE_MIN : Q := 30 # 100.
Definition SOC_CRITICAL_PREEMPT : Q := 35 # 100.
Definition POWER_DEFICIT_MARGIN : Q := 15 # 100.

Definition LOAD_SHED_NONE : Z := 0%Z.
Definition LOAD_SHED_T3 : Z := 1%Z.
Definition LOAD_SHED_T2 : Z := 2%Z.
Definition LOAD_SHED_T1 : Z := 3%Z.

Definition reason_safe : string :=
  "Cyber or sensor anomaly detected — entering SAFE_MODE".
Definition reason_predictive : string :=
  "Predictive generator start based on AI load forecast; preventing future SOC collapse".
Definition reason_hard : string :=
  "Hard SOC preemption: generator forced ON before absolute SOC violation (hospital safety guarantee)".
Definition reason_deficit : string :=
  "Early generator start due to sustained power deficit; preventing rapid SOC collapse and voltage risk".
Definition reason_normal : string :=
  "Battery SOC healthy; normal hospital operation".
Definition reason_stressed : string :=
  "Preventive generator start due to declining SOC; maintaining energy buffer for critical loads".
Definition reason_emergency : string :=
  "Emergency condition: preserving life-critical hospital loads and preventing inverter starvation".

(** [MicrogridController._safe_mode_action(reason)]. *)
Definition _safe_mode_action (r : string) : Decision :=
  mkDecision "START" "PROTECT" LOAD_SHED_T1 (state_value SAFE_MODE) true r.

(** Python [sum(xs)]. *)
Definition qsum (xs : list Q) : Q := fold_left Qplus xs 0.

(** [MicrogridController.decide]: the controller's [self.state] goes in and
    comes out; [load_forecast] is [None] or a Python list (truthy iff
    non-empty); the battery is only read. *)
Definition decide (self_state : SystemState) (solar_kw load_kw : Q)
    (battery : Battery) (load_forecast : option (list Q))
    (generator_available cyber_anomaly : bool) : SystemState * Decision :=
  if cyber_anomaly then
    (SAFE_MODE, _safe_mode_action reason_safe)
  else
  let s := soc battery in
  let predictive :=
    match load_forecast with
    | Some ((_ :: _) as fc) =>
        if generator_available then
          let avg_future_load := qsum fc / inject_Z (Z.of_nat (length fc)) in
          qlt (load_kw * (110 # 100)) avg_future_load && qlt s SOC_STRESSED_MIN
        else false
    | _ => false
    end in
  if predictive then
    (self_state, mkDecision "START" "DISCHARGE" LOAD_SHED_NONE
                   (state_value self_state) false reason_predictive)
  else if generator_available && qle s SOC_CRITICAL_PREEMPT then
    (EMERGENCY, mkDecision "START" "PROTECT" LOAD_SHED_T2
                  (state_value EMERGENCY) false reason_hard)
  else
  let power_deficit := load_kw - solar_kw in
  if qlt (load_kw * POWER_DEFICIT_MARGIN) power_deficit && generator_available then
    (self_state, mkDecision "START" "DISCHARGE" LOAD_SHED_NONE
                   (state_value self_state) false reason_deficit)
  else
  let st' := if qlt s SOC_EMERGENCY_MIN then EMERGENCY
             else if qlt s SOC_STRESSED_MIN then STRESSED
             else NORMAL in
  match st' with
  | NORMAL =>
      (st', mkDecision "STOP" "DISCHARGE" LOAD_SHED_NONE
              (state_value st') false reason_normal)
  | STRESSED =>
      (st', mkDecision "START" "DISCHARGE" LOAD_SHED_T3
              (state_value st') false reason_stressed)
  | _ =>
      (st', mkDecision (if generator_available then "START" else "HOLD")
              "PROTECT" LOAD_SHED_T2 (state_value st') false reason_emergency)
  end.

(** ** controller/safety_invariants.py

    [SafetyInvariants.check]: [None] when it returns normally, [Some msg]
    when it raises [SafetyViolation(msg)]. *)
Definition check (soc : Q) (generator_cmd : string) (generator_available : bool)
    (load_shed_level : Z) (safe_mode : bool) : option string :=
  if (3 <? load_shed_level)%Z then Some "Invalid load shedding level detected"
  else if qlt 0 soc && (load_shed_level =? 3)%Z && negb safe_mode then
    Some "Critical loads shed outside SAFE_MODE"
  else if qlt soc (30 # 100) && generator_available then
    Some "Battery SOC dropped below absolute minimum while generator was available"
  else if qlt soc (40 # 100) && generator_available
          && negb (String.eqb generator_cmd "START") then
    Some "Generator not started during emergency SOC condition"
  else if safe_mode && negb (String.eqb generator_cmd "START") then
    Some "SAFE_MODE active but generator not forced ON"
  else if negb (existsb (String.eqb generator_cmd) ["START"; "STOP"; "HOLD"]) then
    Some "Unknown generator command issued"
  else None.

(** ** controller/cyber_security_manager.py *)

Record CyberSecurityManager := mkCyber {
  alert_active : bool;
  anomaly_now : bool;
  creason : option string;
  _last_soc : option Q;
  _last_load : option Q;
  _last_solar : option Q
}.

(** [CyberSecurityManager.__init__]. *)
Definition cyber_init : CyberSecurityManager :=
  mkCyber false false None None None None.

Definition max_soc_jump_per_step : Q := 8 # 100.
Definition redundant_soc_mismatch : Q := 5 # 100.
Definition redundant_load_mismatch_frac : Q := 10 # 100.
Definition redundant_solar_mismatch_frac : Q := 15 # 100.
Definition max_load_jump_kw : Q := 500.
Definition max_solar_jump_kw : Q := 800.

(** The [sensor_data] dictionary; a missing key reads as [None]. *)
Record SensorFrame := mkFrame {
  f_soc : option Q;
  f_soc_secure : option Q;
  f_load_kw : option Q;
  f_load_kw_secure : option Q;
  f_solar_kw : option Q;
  f_solar_kw_secure : option Q
}.

(** [x is not None and p(x)], and the same for two values. *)
Definition opt1 {A} (p : A -> bool) (o : option A) : bool :=
  match o with Some x => p x | None => false end.
Definition opt2 {A B} (p : A -> B -> bool) (o1 : option A) (o2 : option B) : bool :=
  match o1, o2 with Some x, Some y => p x y | _, _ => false end.

(** [anomaly = True; reason = msg] when [cond] holds. *)
Definition flag (cond : bool) (msg : string) (ar : bool * option string)
    : bool * option string :=
  if cond then (true, Some msg) else ar.

(** [x if x is not None else old]: the last-seen update. *)
Definition update_last (o old : option Q) : option Q :=
  match o with Some x => Some x | None => old end.

(** [CyberSecurityManager.evaluate(sensor_data)]: returns [alert_active]
    and the updated manager. *)
Definition evaluate (self : CyberSecurityManager) (sd : SensorFrame)
    : bool * CyberSecurityManager :=
  let soc := f_soc sd in
  let soc_secure := f_soc_secure sd in
  let load_kw := f_load_kw sd in
  let load_kw_secure := f_load_kw_secure sd in
  let solar_kw := f_solar_kw sd in
  let solar_kw_secure := f_solar_kw_secure sd in
  let ar0 : bool * option string := (false, None) in
  let ar1 := flag (opt1 (fun s => qlt s 0 || qlt 1 s) soc)
               "SOC sensor spoofing detected (out-of-range)" ar0 in
  let ar2 := flag (negb (fst ar1)
                   && opt2 (fun s ss => qlt redundant_soc_mismatch (Qabs (s - ss)))
                        soc soc_secure)
               "SOC sensor spoofing detected (mismatch vs secure channel)" ar1 in
  let ar3 := flag (negb (fst ar2)
                   && opt2 (fun s l => qlt max_soc_jump_per_step (Qabs (s - l)))
                        soc (_last_soc self))
               "SOC anomaly detected (implausible step change)" ar2 in
  let last_soc := update_last soc (_last_soc self) in
  let ar4 := flag (negb (fst ar3) && opt1 (fun l => qlt l 0) load_kw)
               "Load sensor spoofing detected (negative)" ar3 in
  let ar5 := flag (negb (fst ar4)
                   && opt2 (fun l sec => qlt redundant_load_mismatch_frac
                                           (Qabs (l - sec) / qmax 1 (Qabs sec)))
                        load_kw load_kw_secure)
               "Load sensor spoofing detected (mismatch vs secure channel)" ar4 in
  let ar6 := flag (negb (fst ar5)
                   && opt2 (fun l p => qlt max_load_jump_kw (Qabs (l - p)))
                        load_kw (_last_load self))
               "Load anomaly detected (implausible step change)" ar5 in
  let last_load := update_last load_kw (_last_load self) in
  let ar7 := flag (negb (fst ar6) && opt1 (fun l => qlt l 0) solar_kw)
               "Solar sensor spoofing detected (negative)" ar6 in
  let ar8 := flag (negb (fst ar7)
                   && opt2 (fun l sec => qlt redundant_solar_mismatch_frac
                                           (Qabs (l - sec) / qmax 1 (Qabs sec)))
                        solar_kw solar_kw_secure)
               "Solar sensor spoofing detected (mismatch vs secure channel)" ar7 in
  let ar9 := flag (negb (fst ar8)
                   && opt2 (fun l p => qlt max_solar_jump_kw (Qabs (l - p)))
                        solar_kw (_last_solar self))
               "Solar anomaly detected (implausible step change)" ar8 in
  let last_solar := update_last solar_kw (_last_solar self) in
  let anomaly := fst ar9 in
  let alert' := if anomaly then true else alert_active self in
  let reason' := if anomaly then snd ar9 else creason self in
  (alert', mkCyber alert' anomaly reason' last_soc last_load last_solar).

(** ** controller/safe_mode.py: [enforce_safe_mode(sensors)], reading
    [sensors["soc"]]. *)
Record SafeActions := mkSafeActions {
  sa_use_battery : bool;
  sa_use_generator : bool;
  sa_load_shed_level : Z
}.

Definition enforce_safe_mode (sensors_soc : Q) : SafeActions :=
  if qlt sensors_soc (30 # 100) then mkSafeActions false true 3
  else mkSafeActions true true 3.

(** ** utils/validator.py *)
Definition validate_phase5 (blackout critical_served : bool) (soc : Q) : bool :=
  if blackout then false
  else if negb critical_served then false
  else if qlt soc (20 # 100) then false
  else true.

(** ** components/generator.py and components/solar.py *)
Record DieselGenerator := mkGenerator {
  gen_max_power_kw : Q;
  is_on : bool
}.

Definition gen_start (g : DieselGenerator) := mkGenerator (gen_max_power_kw g) true.
Definition gen_stop (g : DieselGenerator) := mkGenerator (gen_max_power_kw g) false.

Definition solar_get_power (max_power_kw available_power_kw : Q) : Q :=
  qmin max_power_kw available_power_kw.

(** ** simulation/simulator.py *)

Definition CRITICAL_LOAD_KW : Q := 30.
Definition POWER_EPS_KW : Q := 1 # 1000000.

(** One attack dictionary; [start] and [end] carry their defaults [0] and
    [-1] when the key is absent, the other keys are [None] when absent. *)
Record Attack := mkAttack {
  a_type : option string;
  a_start : Z;
  a_end : Z;
  a_spoof_value : option Q;
  a_scale : option Q;
  a_offset : option Q
}.

(** [a.get(key, default)]. *)
Definition get_or (o : option Q) (d : Q) : Q :=
  match o with Some x => x | None => d end.

(** The fields of a [MicrogridSimulator] that the loop reads and writes.
    The forecaster is an external collaborator: [None] or a function from
    the load history to its prediction.  The [_prev_*] flags only feed
    console messages, log cadence and summary counters, which are not
    modelled. *)
Record Simulator := mkSim {
  sim_solar_max_power_kw : Q;
  sim_battery : Battery;
  sim_generator : DieselGenerator;
  sim_controller : SystemState;
  sim_forecaster : option (list (Z * Q) -> list Q);
  sim_history : list (Z * Q);
  sim_cyber : CyberSecurityManager
}.

(** One entry of the [results] list. *)
Record StepRecord := mkRecord {
  r_time : Z;
  r_load_kw : Q;
  r_sensed_load_kw : Q;
  r_solar_kw : Q;
  r_sensed_solar_kw : Q;
  r_generator_kw : Q;
  r_battery_kw : Q;
  r_battery_charge_kw : Q;
  r_battery_soc : Q;
  r_generator_cmd : string;
  r_generator_on : bool;
  r_state : string;
  r_cyber_alert : bool;
  r_cyber_anomaly_now : bool;
  r_attack_active : bool;
  r_ai_forecast : bool;
  r_ai_triggered : bool;
  r_load_shed_level : Z;
  r_served_load_kw : Q;
  r_blackout : bool;
  r_critical_served : bool;
  r_unsafe : bool;
  r_validator_ok : bool;
  r_reason : string
}.

(** Exceptions that escape [run]. *)
Inductive SimError :=
  | SafetyViolation (msg : string)
  | IndexError.

(** The attack loop: [(attack_active, measured_soc, sensed_load_kw,
    sensed_solar_kw)] after applying every attack active at [t]. *)
Definition apply_attack (t : Z) (true_load_kw solar_kw : Q)
    (acc : bool * Q * Q * Q) (a : Attack) : bool * Q * Q * Q :=
  let '(active, msoc, sload, ssolar) := acc in
  if negb ((a_start a <=? t)%Z && ((a_end a <? 0)%Z || (t <=? a_end a)%Z)) then acc
  else
    match a_type a with
    | Some "soc_spoof" => (true, get_or (a_spoof_value a) msoc, sload, ssolar)
    | Some "load_spoof" =>
        (true, msoc, true_load_kw * get_or (a_scale a) 1 + get_or (a_offset a) 0, ssolar)
    | Some "solar_spoof" =>
        (true, msoc, sload, solar_kw * get_or (a_scale a) 1 + get_or (a_offset a) 0)
    | _ => (true, msoc, sload, ssolar)
    end.

(** The fraction of non-critical demand shed at a tier. *)
Definition shed_fraction (load_shed_level : Z) : Q :=
  if (load_shed_level <=? 0)%Z then 0
  else if (load_shed_level =? 1)%Z then 10 # 100
  else if (load_shed_level =? 2)%Z then 30 # 100
  else 1.

(** [served_load_kw] computed from the true load and the tier. *)
Definition served_load (load_kw : Q) (load_shed_level : Z) : Q :=
  let critical_demand_kw := qmin load_kw CRITICAL_LOAD_KW in
  let non_critical_demand_kw := qmax 0 (load_kw - critical_demand_kw) in
  let served_non_critical_kw :=
    non_critical_demand_kw * (1 - shed_fraction load_shed_level) in
  critical_demand_kw + served_non_critical_kw.

(** ["Predictive generator start" in reason]. *)
Definition ai_triggered_of (r : string) : bool :=
  match String.index 0 "Predictive generator start" r with
  | Some _ => true
  | None => false
  end.

(** SAFE MODE OVERRIDE: [(generator_cmd, state, load_shed_level,
    use_battery, use_generator)] of the decision after the override. *)
Definition safe_mode_override (cyber_alert : bool) (measured_soc : Q) (decision : Decision)
    : string * string * Z * bool * bool :=
  if cyber_alert then
    let safe_actions := enforce_safe_mode measured_soc in
    ("START", "SAFE_MODE", sa_load_shed_level safe_actions,
     sa_use_battery safe_actions, sa_use_generator safe_actions)
  else (generator_cmd decision, state decision, load_shed_level decision, true, true).

(** APPLY GENERATOR COMMAND. *)
Definition apply_generator_cmd (gcmd : string) (g : DieselGenerator) : DieselGenerator :=
  if String.eqb gcmd "START" then gen_start g
  else if String.eqb gcmd "STOP" then gen_stop g
  else g.

(** POWER BALANCE and CHARGE BATTERY FROM SURPLUS: [(gen_kw, discharged_kw,
    battery_charge_kw, battery)]. *)
Definition power_balance (battery : Battery) (gen : DieselGenerator)
    (solar_kw served_load_kw : Q) (use_battery use_generator : bool)
    : Q * Q * Q * Battery :=
  let remaining_kw := qmax 0 (served_load_kw - solar_kw) in
  let '(gen_kw, remaining_kw) :=
    if is_on gen && use_generator then
      let g := qmin (gen_max_power_kw gen) remaining_kw in
      (g, qmax 0 (remaining_kw - g))
    else (0, remaining_kw) in
  let '(discharged_kw, battery) :=
    if qlt 0 remaining_kw && use_battery then discharge battery remaining_kw 1 (30 # 100)
    else (0, battery) in
  let excess_kw := qmax 0 (solar_kw - served_load_kw) in
  let '(battery_charge_kw, battery) :=
    if qlt 0 excess_kw && use_battery then charge battery excess_kw 1
    else (0, battery) in
  (gen_kw, discharged_kw, battery_charge_kw, battery).

(** The body of the [for t in range(horizon)] loop, up to (not including)
    [SafetyInvariants.check]. *)
Definition step_body (load_profile solar_profile : list Q) (attacks : list Attack)
    (t : nat) (sim : Simulator) : SimError + (StepRecord * Simulator) :=
  match nth_error load_profile t, nth_error solar_profile t with
  | None, _ | _, None => inl IndexError
  | Some true_load_kw, Some solar_kw_raw =>
  let tz := Z.of_nat t in
  let solar_kw := solar_get_power (sim_solar_max_power_kw sim) solar_kw_raw in
  let battery := sim_battery sim in
  let '(attack_active, measured_soc, sensed_load_kw, sensed_solar_kw) :=
    fold_left (apply_attack tz true_load_kw solar_kw) attacks
              (false, soc battery, true_load_kw, solar_kw) in
  let sensor_data := mkFrame (Some measured_soc) (Some (soc battery))
                      (Some sensed_load_kw) (Some true_load_kw)
                      (Some sensed_solar_kw) (Some solar_kw) in
  let '(cyber_alert, cyber') := evaluate (sim_cyber sim) sensor_data in
  let cyber_anomaly_now := anomaly_now cyber' in
  let history := app (sim_history sim) [(tz, true_load_kw)] in
  let load_forecast :=
    match sim_forecaster sim with
    | Some f => if (24 <=? length history)%nat then Some (f history) else None
    | None => None
    end in
  let ai_forecast_available := match load_forecast with Some _ => true | None => false end in
  let '(ctrl', decision) :=
    decide (sim_controller sim) sensed_solar_kw sensed_load_kw battery
           load_forecast true cyber_alert in
  let ai_triggered := ai_triggered_of (reason decision) in
  let '(gcmd, dstate, lsl, use_battery, use_generator) :=
    safe_mode_override cyber_alert measured_soc decision in
  let load_kw := true_load_kw in
  let served_load_kw := served_load load_kw lsl in
  let gen := apply_generator_cmd gcmd (sim_generator sim) in
  let '(gen_kw, discharged_kw, battery_charge_kw, battery) :=
    power_balance battery gen solar_kw served_load_kw use_battery use_generator in
  let supply_kw := solar_kw + gen_kw + discharged_kw in
  let blackout := qlt (supply_kw + POWER_EPS_KW) served_load_kw in
  let critical_served := qle CRITICAL_LOAD_KW supply_kw in
  let unsafe := qlt (soc battery) (20 # 100) in
  let validator_ok := validate_phase5 blackout critical_served (soc battery) in
  inr (mkRecord tz true_load_kw sensed_load_kw solar_kw sensed_solar_kw gen_kw
          discharged_kw battery_charge_kw (soc battery) gcmd (is_on gen) dstate
          cyber_alert cyber_anomaly_now attack_active ai_forecast_available
          ai_triggered lsl served_load_kw blackout critical_served unsafe
          validator_ok (reason decision),
       mkSim (sim_solar_max_power_kw sim) battery gen ctrl' (sim_forecaster sim)
          history cyber')
  end.

(** One loop iteration: the body, then [SafetyInvariants.check] on the
    actual battery state and decision, which the loop does not catch. *)
Definition step (load_profile solar_profile : list Q) (attacks : list Attack)
    (t : nat) (sim : Simulator) : SimError + (StepRecord * Simulator) :=
  match step_body load_profile solar_profile attacks t sim with
  | inl e => inl e
  | inr (r, sim') =>
      match check (r_battery_soc r) (r_generator_cmd r) true
                  (r_load_shed_level r) (String.eqb (r_state r) "SAFE_MODE") with
      | Some msg => inl (SafetyViolation msg)
      | None => inr (r, sim')
      end
  end.

Fixpoint run_loop (load_profile solar_profile : list Q) (attacks : list Attack)
    (ts : list nat) (sim : Simulator) : SimError + (list StepRecord * Simulator) :=
  match ts with
  | [] => inr ([], sim)
  | t :: ts' =>
      match step load_profile solar_profile attacks t sim with
      | inl e => inl e
      | inr (r, sim') =>
          match run_loop load_profile solar_profile attacks ts' sim' with
          | inl e => inl e
          | inr (rs, fin) => inr (r :: rs, fin)
          end
      end
  end.

(** [MicrogridSimulator.run(load_profile, solar_profile, attack)]: the
    recorded results, or the exception that ends the run. *)
Definition run (sim : Simulator) (load_profile solar_profile : list Q)
    (attacks : list Attack) : SimError + (list StepRecord * Simulator) :=
  run_loop load_profile solar_profile attacks (seq 0 (length load_profile)) sim.

(** [MicrogridSimulator.__init__] with a fresh controller. *)
Definition new_simulator (solar_max : Q) (battery : Battery) (generator : DieselGenerator)
    (forecaster : option (list (Z * Q) -> list Q)) : Simulator :=
  mkSim solar_max battery generator NORMAL forecaster [] cyber_init.

(** * Proofs *)

(** ** Comparisons *)

Lemma qlt_true a b : qlt a b = true <-> a < b.
Proof.
  unfold qlt. rewrite negb_true_iff. split; intro H.
  - apply Qnot_le_lt. intro H'. apply Qle_bool_iff in H'. congruence.
  - destruct (Qle_bool b a) eqn:E; [|reflexivity].
    apply Qle_bool_iff in E. exfalso. apply (Qlt_not_le _ _ H E).
Qed.

Lemma qlt_false a b : qlt a b = false <-> b <= a.
Proof.
  unfold qlt. rewrite negb_false_iff. apply Qle_bool_iff.
Qed.

Lemma qle_true a b : qle a b = true <-> a <= b.
Proof. apply Qle_bool_iff. Qed.

Lemma qle_false a b : qle a b = false <-> b < a.
Proof.
  unfold qle. split; intro H.
  - apply Qnot_le_lt. intro H'. apply Qle_bool_iff in H'. congruence.
  - destruct (Qle_bool a b) eqn:E; [|reflexivity].
    apply Qle_bool_iff in E. exfalso. apply (Qlt_not_le _ _ H E).
Qed.

(** Split on the first comparison in the goal, recording its outcome. *)
Ltac qcase :=
  match goal with
  | |- context [qlt ?a ?b] =>
      let E := fresh "E" in
      destruct (qlt a b) eqn:E;
      [apply qlt_true in E | apply qlt_false in E]
  | |- context [qle ?a ?b] =>
      let E := fresh "E" in
      destruct (qle a b) eqn:E;
      [apply qle_true in E | apply qle_false in E]
  end.

Lemma qmin_le_l a b : qmin a b <= a.
Proof. unfold qmin; qcase; lra. Qed.

Lemma qmin_le_r a b : qmin a b <= b.
Proof. unfold qmin; qcase; lra. Qed.

Lemma qmin_glb a b c : c <= a -> c <= b -> c <= qmin a b.
Proof. unfold qmin; qcase; lra. Qed.

Lemma qmax_ge_l a b : a <= qmax a b.
Proof. unfold qmax; qcase; lra. Qed.

Lemma qmax_ge_r a b : b <= qmax a b.
Proof. unfold qmax; qcase; lra. Qed.

(** ** The controller *)

(** The branch reasons are pairwise distinct strings. *)
Lemma reasons_distinct :
  reason_safe <> reason_predictive /\ reason_safe <> reason_deficit /\
  reason_hard <> reason_predictive /\ reason_hard <> reason_deficit /\
  reason_normal <> reason_predictive /\ reason_normal <> reason_deficit /\
  reason_stressed <> reason_predictive /\ reason_stressed <> reason_deficit /\
  reason_emergency <> reason_predictive /\ reason_emergency <> reason_deficit /\
  reason_predictive <> reason_deficit.
Proof. repeat split; discriminate. Qed.

(** Every decision [decide] returns has a tier in [0..3]. *)
Lemma decide_level_range st solar load bat fc gen cyb :
  (0 <= load_shed_level (snd (decide st solar load bat fc gen cyb)) <= 3)%Z.
Proof.
  unfold decide, _safe_mode_action, LOAD_SHED_NONE, LOAD_SHED_T1, LOAD_SHED_T2,
    LOAD_SHED_T3.
  destruct cyb; [simpl; lia|].
  destruct (match fc with
            | Some (_ :: _) => _ | _ => false end); [simpl; lia|].
  destruct (gen && qle (soc bat) SOC_CRITICAL_PREEMPT); [simpl; lia|].
  destruct (qlt _ _ && gen); [simpl; lia|].
  destruct (qlt (soc bat) SOC_EMERGENCY_MIN); [simpl; lia|].
  destruct (qlt (soc bat) SOC_STRESSED_MIN); simpl; lia.
Qed.

(** C1: with [cyber_anomaly = true], whatever the other arguments, [decide]
    enters SAFE_MODE and returns generator START, battery PROTECT, tier 3,
    [safe_mode = true] and state SAFE_MODE; and every decision [decide] can
    return with [safe_mode = true] has generator command START. *)
Theorem decide_cyber_safe_mode :
  (forall st solar load bat fc gen,
     let '(st', d) := decide st solar load bat fc gen true in
     st' = SAFE_MODE /\ safe_mode d = true /\ generator_cmd d = "START" /\
     battery_mode d = "PROTECT" /\ load_shed_level d = 3%Z /\
     state d = "SAFE_MODE") /\
  (forall st solar load bat fc gen cyb,
     safe_mode (snd (decide st solar load bat fc gen cyb)) = true ->
     generator_cmd (snd (decide st solar load bat fc gen cyb)) = "START").
Proof.
  split.
  - intros. simpl. repeat split.
  - intros st solar load bat fc gen cyb. unfold decide.
    destruct cyb; [reflexivity|].
    destruct (match fc with
              | Some (_ :: _) => _ | _ => false end); [reflexivity|].
    destruct (gen && qle (soc bat) SOC_CRITICAL_PREEMPT); [reflexivity|].
    destruct (qlt _ _ && gen); [reflexivity|].
    destruct (qlt (soc bat) SOC_EMERGENCY_MIN); [simpl; discriminate|].
    destruct (qlt (soc bat) SOC_STRESSED_MIN); simpl; discriminate.
Qed.

Lemma decide_cyber_safe_mode_witness :
  safe_mode (snd (decide NORMAL 0 100 (mkBattery 100 (1 # 2) 50 50) None true true)) = true /\
  generator_cmd (snd (decide NORMAL 0 100 (mkBattery 100 (1 # 2) 50 50) None true true)) = "START".
Proof.
  split; [reflexivity|].
  apply (proj2 decide_cyber_safe_mode). reflexivity.
Defined.

(** C3 (as stated): soc 0.32 with the generator available is not enough;
    a forecast whose mean exceeds 1.10 times the load selects the predictive
    branch first, which keeps the previous state, discharges the battery and
    sheds nothing. *)
Lemma decide_hard_preempt_counterexample :
  ~ (forall st solar load bat fc,
       soc bat <= 35 # 100 ->
       let d := snd (decide st solar load bat fc true false) in
       state d = "EMERGENCY" /\ generator_cmd d = "START" /\
       battery_mode d = "PROTECT" /\ load_shed_level d = 2%Z).
Proof.
  intro H.
  destruct (H NORMAL 0 100 (mkBattery 100 (32 # 100) 50 50) (Some [200]))
    as [Hs _].
  - simpl; lra.
  - vm_compute in Hs. discriminate Hs.
Qed.

(** C3 (amended): with the generator available, no cyber anomaly and
    soc at most 0.35: when the forecast does not trigger predictive
    preemption (it is absent, empty, or its mean is at most 1.10 times the
    load), [decide] enters EMERGENCY and returns generator START, battery
    PROTECT and tier 2, whatever the load and solar values; when the
    forecast is non-empty and its mean exceeds 1.10 times the load, the
    predictive branch decides first: generator START, battery DISCHARGE,
    tier 0, the previous state kept and reported. *)
Theorem decide_hard_preempt st solar load bat fc :
  soc bat <= 35 # 100 ->
  (match fc with
   | Some ((_ :: _) as l) =>
       qsum l / inject_Z (Z.of_nat (length l)) <= load * (110 # 100)
   | _ => True
   end ->
   let '(st', d) := decide st solar load bat fc true false in
   st' = EMERGENCY /\ state d = "EMERGENCY" /\ generator_cmd d = "START" /\
   battery_mode d = "PROTECT" /\ load_shed_level d = 2%Z) /\
  (forall x l, fc = Some (x :: l) ->
   load * (110 # 100) < qsum (x :: l) / inject_Z (Z.of_nat (length (x :: l))) ->
   let '(st', d) := decide st solar load bat fc true false in
   st' = st /\ state d = state_value st /\ generator_cmd d = "START" /\
   battery_mode d = "DISCHARGE" /\ load_shed_level d = 0%Z).
Proof.
  intros Hsoc. split.
  - intros Hfc.
    assert (Hp : qle (soc bat) SOC_CRITICAL_PREEMPT = true) by (apply qle_true; exact Hsoc).
    unfold decide.
    destruct fc as [[|x l]|].
    + simpl andb. rewrite Hp. repeat split.
    + rewrite (proj2 (qlt_false _ _) Hfc). simpl andb. rewrite Hp. repeat split.
    + simpl andb. rewrite Hp. repeat split.
  - intros x l Hfc Hlt. subst fc.
    assert (Hs : qlt (soc bat) SOC_STRESSED_MIN = true)
      by (apply qlt_true; unfold SOC_STRESSED_MIN; lra).
    unfold decide. cbv beta iota zeta.
    rewrite (proj2 (qlt_true _ _) Hlt), Hs. cbn [andb].
    repeat split.
Qed.

Lemma decide_hard_preempt_witness :
  (let '(st', d) := decide NORMAL 0 100 (mkBattery 100 (32 # 100) 50 50) None true false in
   st' = EMERGENCY /\ state d = "EMERGENCY" /\ generator_cmd d = "START" /\
   battery_mode d = "PROTECT" /\ load_shed_level d = 2%Z) /\
  (let '(st', d) :=
     decide NORMAL 0 100 (mkBattery 100 (32 # 100) 50 50) (Some [200]) true false in
   st' = NORMAL /\ state d = state_value NORMAL /\ generator_cmd d = "START" /\
   battery_mode d = "DISCHARGE" /\ load_shed_level d = 0%Z).
Proof.
  split.
  - apply (proj1 (decide_hard_preempt NORMAL 0 100 (mkBattery 100 (32 # 100) 50 50) None
                    ltac:(simpl; lra))).
    exact I.
  - apply (proj2 (decide_hard_preempt NORMAL 0 100 (mkBattery 100 (32 # 100) 50 50)
                    (Some [200]) ltac:(simpl; lra)) 200 []);
      [reflexivity | vm_compute; reflexivity].
Defined.

(** C10: when [decide] returns through the predictive-preemption branch or
    the power-deficit branch (the only branches with those reasons), the
    controller's stored state is unchanged and the decision reports that
    unchanged state. *)
Theorem decide_predictive_deficit_keep_state st solar load bat fc gen cyb st' d :
  decide st solar load bat fc gen cyb = (st', d) ->
  reason d = reason_predictive \/ reason d = reason_deficit ->
  st' = st /\ state d = state_value st.
Proof.
  unfold decide.
  destruct cyb.
  { intros E; inversion E; subst; simpl.
    intros [H|H]; exfalso; revert H; unfold reason_safe, reason_predictive,
      reason_deficit; discriminate. }
  destruct (match fc with | Some (_ :: _) => _ | _ => false end).
  { intros E; inversion E; subst; simpl; auto. }
  destruct (gen && qle (soc bat) SOC_CRITICAL_PREEMPT).
  { intros E; inversion E; subst; simpl.
    intros [H|H]; exfalso; revert H; unfold reason_hard, reason_predictive,
      reason_deficit; discriminate. }
  destruct (qlt _ _ && gen).
  { intros E; inversion E; subst; simpl; auto. }
  destruct (qlt (soc bat) SOC_EMERGENCY_MIN); [|destruct (qlt (soc bat) SOC_STRESSED_MIN)];
    intros E; inversion E; subst; simpl;
    intros [H|H]; exfalso; revert H;
    unfold reason_normal, reason_stressed, reason_emergency, reason_predictive,
      reason_deficit; discriminate.
Qed.

Lemma decide_predictive_deficit_keep_state_witness :
  decide EMERGENCY 0 100 (mkBattery 100 (1 # 2) 50 50) None true false =
    (EMERGENCY, mkDecision "START" "DISCHARGE" 0 "EMERGENCY" false reason_deficit) /\
  (reason_deficit = reason_predictive \/ reason_deficit = reason_deficit) /\
  EMERGENCY = EMERGENCY /\ "EMERGENCY" = state_value EMERGENCY.
Proof.
  split; [reflexivity|]. split; [right; reflexivity|].
  apply (decide_predictive_deficit_keep_state EMERGENCY 0 100 (mkBattery 100 (1 # 2) 50 50)
           None true false EMERGENCY
           (mkDecision "START" "DISCHARGE" 0 "EMERGENCY" false reason_deficit));
    [reflexivity | right; reflexivity].
Defined.

(** ** The battery *)

Lemma Qdiv_nonneg x c : 0 <= x -> 0 < c -> 0 <= x / c.
Proof.
  intros Hx Hc. unfold Qdiv. apply Qmult_le_0_compat; [exact Hx|].
  apply Qlt_le_weak, Qinv_lt_0_compat, Hc.
Qed.

Lemma Qdiv_0_num c : 0 / c == 0.
Proof. unfold Qdiv. apply Qmult_0_l. Qed.

(** The clamped [min_soc] is the argument when that is a fraction. *)
Lemma clamp_min_soc m : 0 <= m <= 1 -> qmax 0 (qmin 1 m) == m.
Proof.
  intros Hm. unfold qmin.
  destruct (qlt m 1) eqn:E1; [apply qlt_true in E1 | apply qlt_false in E1];
    unfold qmax; qcase; lra.
Qed.

Lemma clamp_min_soc_030 : qmax 0 (qmin 1 (30 # 100)) = 30 # 100.
Proof. reflexivity. Qed.

(** C9: a discharge of a battery whose soc is strictly below the
    [min_soc] argument (a fraction in [0,1]; capacity positive; power,
    power limit and [dt] non-negative) returns no energy yet sets the soc to
    [min_soc], raising it. *)
Theorem discharge_below_min_soc b p dt m :
  0 < capacity b -> 0 <= p -> 0 <= max_discharge_kw b -> 0 <= dt ->
  0 <= m <= 1 -> soc b < m ->
  fst (discharge b p dt m) == 0 /\ soc (snd (discharge b p dt m)) == m /\
  soc b < soc (snd (discharge b p dt m)).
Proof.
  intros Hc Hp Hmd Hdt Hm Hs.
  unfold discharge, with_soc. cbv zeta. cbn [fst snd soc].
  set (ms := qmax 0 (qmin 1 m)).
  assert (Hms : ms == m) by (apply clamp_min_soc, Hm).
  set (energy := qmin p (max_discharge_kw b) * dt).
  assert (He : 0 <= energy).
  { apply Qmult_le_0_compat; [apply qmin_glb|]; assumption. }
  assert (Hneg : soc b * capacity b - ms * capacity b < 0).
  { rewrite Hms. assert (soc b * capacity b < m * capacity b)
      by (apply Qmult_lt_r; assumption). lra. }
  assert (Hav : qmax 0 (soc b * capacity b - ms * capacity b) = 0).
  { unfold qmax. rewrite (proj2 (qlt_false _ _) (Qlt_le_weak _ _ Hneg)). reflexivity. }
  rewrite Hav.
  assert (Hq : qmin energy 0 == 0) by (unfold qmin; qcase; lra).
  assert (Hy : soc b - qmin energy 0 / capacity b <= ms).
  { rewrite Hq, Qdiv_0_num. lra. }
  unfold qmax. rewrite (proj2 (qlt_false _ _) Hy).
  split; [exact Hq|]. split; [exact Hms|]. lra.
Qed.

Lemma discharge_below_min_soc_witness :
  fst (discharge (mkBattery 100 (1 # 10) 50 50) 20 1 (30 # 100)) == 0 /\
  soc (snd (discharge (mkBattery 100 (1 # 10) 50 50) 20 1 (30 # 100))) == 30 # 100 /\
  soc (mkBattery 100 (1 # 10) 50 50) <
    soc (snd (discharge (mkBattery 100 (1 # 10) 50 50) 20 1 (30 # 100))).
Proof.
  apply discharge_below_min_soc; simpl; lra.
Defined.

(** Discharging with floor 0.30 never leaves the soc below 0.30. *)
Lemma discharge_soc_floor b p dt :
  30 # 100 <= soc (snd (discharge b p dt (30 # 100))).
Proof.
  unfold discharge, with_soc. cbv zeta. cbn [snd soc].
  rewrite clamp_min_soc_030. apply qmax_ge_l.
Qed.

Lemma discharge_keeps_params b p dt m :
  capacity (snd (discharge b p dt m)) = capacity b /\
  max_charge_kw (snd (discharge b p dt m)) = max_charge_kw b.
Proof. split; reflexivity. Qed.

Lemma charge_keeps_params b p dt :
  capacity (snd (charge b p dt)) = capacity b /\
  max_charge_kw (snd (charge b p dt)) = max_charge_kw b.
Proof. split; reflexivity. Qed.

(** Charging a positive power into a battery of positive capacity and
    non-negative charge limit keeps the soc at or above any level [x <= 1]
    it was at. *)
Lemma charge_soc_floor b p dt x :
  0 < capacity b -> 0 <= max_charge_kw b -> 0 < p -> 0 <= dt ->
  x <= 1 -> x <= soc b -> x <= soc (snd (charge b p dt)).
Proof.
  intros Hc Hm Hp Hdt Hx Hs.
  unfold charge, with_soc. cbv zeta. cbn [snd soc].
  apply qmin_glb; [exact Hx|].
  assert (0 <= qmin p (max_charge_kw b) * dt / capacity b).
  { apply Qdiv_nonneg; [|exact Hc].
    apply Qmult_le_0_compat; [apply qmin_glb; lra | exact Hdt]. }
  lra.
Qed.

(** ** The simulation loop *)

(** A battery of positive capacity, non-negative charge limit and soc at
    least the 0.30 floor. *)
Definition battery_ok (b : Battery) : Prop :=
  0 < capacity b /\ 0 <= max_charge_kw b /\ 30 # 100 <= soc b.

Lemma power_balance_battery_ok b g solar served ub ug :
  battery_ok b ->
  battery_ok (snd (power_balance b g solar served ub ug)).
Proof.
  intros (Hc & Hm & Hs). unfold power_balance. cbv zeta.
  destruct (if is_on g && ug then _ else _) as [gk rem].
  assert (H1 : battery_ok (snd (if qlt 0 rem && ub
                                then discharge b rem 1 (30 # 100) else (0, b)))).
  { destruct (qlt 0 rem && ub); [|split; auto].
    split; [|split]; [exact Hc | exact Hm | apply discharge_soc_floor]. }
  destruct (if qlt 0 rem && ub then _ else _) as [dk b1].
  destruct H1 as (Hc1 & Hm1 & Hs1). cbn [snd] in *.
  destruct (qlt 0 (qmax 0 (solar - served))) eqn:Ex; simpl andb;
    [apply qlt_true in Ex|];
    [destruct ub|]; simpl; try (split; [|split]; assumption).
  split; [|split]; [exact Hc1 | exact Hm1|].
  apply charge_soc_floor; try assumption; lra.
Qed.

(** Every iteration that completes is one whose body completed. *)
Lemma run_loop_invariant (I : Simulator -> Prop) (P : StepRecord -> Prop)
    L S A :
  (forall t sim r sim', I sim -> step_body L S A t sim = inr (r, sim') ->
                        P r /\ I sim') ->
  forall ts sim rs fin, I sim -> run_loop L S A ts sim = inr (rs, fin) -> Forall P rs.
Proof.
  intros Hstep ts. induction ts as [|t ts IH]; intros sim rs fin HI E; simpl in E.
  - inversion E. constructor.
  - unfold step in E.
    destruct (step_body L S A t sim) as [e|[r sim']] eqn:Eb; [discriminate|].
    destruct (check _ _ _ _ _); [discriminate|].
    destruct (run_loop L S A ts sim') as [e|[rs' fin']] eqn:Er; [discriminate|].
    inversion E; subst.
    destruct (Hstep t sim r sim' HI Eb) as [HP HI'].
    constructor; [exact HP | exact (IH sim' rs' _ HI' Er)].
Qed.

(** Unfold one loop body down to its record, naming the power balance. *)
Ltac open_step_body :=
  unfold step_body;
  let tl := fresh "true_load" in
  let sr := fresh "solar_raw" in
  match goal with
  | |- context [nth_error ?l1 ?n1] =>
      destruct (nth_error l1 n1) as [tl|]; [|intro; discriminate]
  end;
  match goal with
  | |- context [nth_error ?l2 ?n2] =>
      destruct (nth_error l2 n2) as [sr|]; [|intro; discriminate]
  end;
  cbv zeta;
  destruct (fold_left _ _ _) as [[[? ?] ?] ?];
  destruct (evaluate _ _) as [? ?];
  destruct (decide _ _ _ _ _ _ _) as [? ?] eqn:?;
  destruct (safe_mode_override _ _ _) as [[[[? ?] ?] ?] ?] eqn:?.

Lemma step_body_battery_ok L S A t sim r sim' :
  battery_ok (sim_battery sim) ->
  step_body L S A t sim = inr (r, sim') ->
  30 # 100 <= r_battery_soc r /\ battery_ok (sim_battery sim').
Proof.
  intros HI. open_step_body.
  match goal with
  | |- context [power_balance ?b ?g ?s ?sv ?u1 ?u2] =>
      pose proof (power_balance_battery_ok b g s sv u1 u2 HI) as HPB;
      destruct (power_balance b g s sv u1 u2) as [[[? ?] ?] ?]
  end.
  intros E; inversion E; subst; simpl in *.
  split; [apply HPB | exact HPB].
Qed.

(** C2: in every run that completes, battery well-formed (positive
    capacity, non-negative charge limit) and starting at soc at least 0.30,
    every recorded [battery_soc] is at least 0.30 (the loop calls [decide]
    and [check] with the generator available throughout). *)
Theorem run_soc_never_below_floor sim L S A rs fin :
  0 < capacity (sim_battery sim) -> 0 <= max_charge_kw (sim_battery sim) ->
  30 # 100 <= soc (sim_battery sim) ->
  run sim L S A = inr (rs, fin) ->
  Forall (fun r => 30 # 100 <= r_battery_soc r) rs.
Proof.
  intros Hc Hm Hs. unfold run.
  apply (run_loop_invariant (fun s => battery_ok (sim_battery s))).
  - intros t s r s' HI Eb. exact (step_body_battery_ok L S A t s r s' HI Eb).
  - split; [|split]; assumption.
Qed.

(** A sample simulator: 100 kWh battery at soc 0.95, 900 kW of PV,
    a 2000 kW generator, no forecaster. *)
Definition sample_sim : Simulator :=
  new_simulator 900 (mkBattery 100 (95 # 100) 50 50) (mkGenerator 2000 false) None.

Lemma run_soc_never_below_floor_witness :
  match run sample_sim [10; 200; 400] [100; 0; 0] [] with
  | inr (rs, _) => Forall (fun r => 30 # 100 <= r_battery_soc r) rs
  | inl _ => False
  end.
Proof.
  destruct (run sample_sim [10; 200; 400] [100; 0; 0] []) as [e|[rs fin]] eqn:E.
  - vm_compute in E. discriminate E.
  - apply (run_soc_never_below_floor sample_sim [10; 200; 400] [100; 0; 0] [] rs fin);
      [simpl; lra | simpl; lra | simpl; lra | exact E].
Defined.

(** The spec's served-load formula: [f(0) = 0], [f(1) = 0.10],
    [f(2) = 0.30], [f(3) = 1.0], tiers above 3 as tier 3 (negative tiers,
    which [decide] never produces, as tier 0). *)
Definition claim_shed_fraction (tier : Z) : Q :=
  if (3 <=? tier)%Z then 1
  else if (tier =? 2)%Z then 30 # 100
  else if (tier =? 1)%Z then 10 # 100
  else 0.

Definition claim_served_load (true_load : Q) (tier : Z) : Q :=
  qmin true_load 30 + qmax 0 (true_load - 30) * (1 - claim_shed_fraction tier).

Lemma shed_fraction_claim tier : shed_fraction tier == claim_shed_fraction tier.
Proof.
  unfold shed_fraction, claim_shed_fraction.
  destruct (Z.leb_spec tier 0); destruct (Z.leb_spec 3 tier);
    destruct (Z.eqb_spec tier 1); destruct (Z.eqb_spec tier 2);
    try lia; reflexivity.
Qed.

Lemma shed_fraction_bounds tier : 0 <= shed_fraction tier <= 1.
Proof.
  unfold shed_fraction.
  destruct (tier <=? 0)%Z; [|destruct (tier =? 1)%Z; [|destruct (tier =? 2)%Z]];
    split; unfold Qle; simpl; lia.
Qed.

Lemma shed_fraction_mono t1 t2 :
  (t1 <= t2)%Z -> shed_fraction t1 <= shed_fraction t2.
Proof.
  intros H. unfold shed_fraction.
  destruct (Z.leb_spec t1 0); destruct (Z.leb_spec t2 0);
    destruct (Z.eqb_spec t1 1); destruct (Z.eqb_spec t2 1);
    destruct (Z.eqb_spec t1 2); destruct (Z.eqb_spec t2 2);
    try lia; unfold Qle; simpl; lia.
Qed.

Lemma served_load_claim L tier : served_load L tier == claim_served_load L tier.
Proof.
  unfold served_load, claim_served_load, CRITICAL_LOAD_KW.
  rewrite shed_fraction_claim.
  assert (H : qmax 0 (L - qmin L 30) == qmax 0 (L - 30)).
  { unfold qmin. qcase; unfold qmax; repeat qcase; lra. }
  rewrite H. reflexivity.
Qed.

Lemma served_load_mono L t1 t2 :
  (t1 <= t2)%Z -> served_load L t2 <= served_load L t1.
Proof.
  intros H. unfold served_load.
  pose proof (shed_fraction_mono t1 t2 H).
  pose proof (qmax_ge_l 0 (L - qmin L CRITICAL_LOAD_KW)).
  apply Qplus_le_r.
  rewrite !(Qmult_comm (qmax 0 _)).
  apply Qmult_le_compat_r; lra.
Qed.

Lemma served_load_floor L tier : qmin L CRITICAL_LOAD_KW <= served_load L tier.
Proof.
  unfold served_load.
  pose proof (shed_fraction_bounds tier).
  pose proof (qmax_ge_l 0 (L - qmin L CRITICAL_LOAD_KW)).
  assert (0 <= qmax 0 (L - qmin L CRITICAL_LOAD_KW) * (1 - shed_fraction tier))
    by (apply Qmult_le_0_compat; lra).
  lra.
Qed.

Lemma decide_level_range_eq st solar load bat fc gen cyb st' d :
  decide st solar load bat fc gen cyb = (st', d) -> (0 <= load_shed_level d <= 3)%Z.
Proof.
  intros E. pose proof (decide_level_range st solar load bat fc gen cyb) as H.
  rewrite E in H. exact H.
Qed.

Lemma override_level_range c ms d gc ds l ub ug :
  (0 <= load_shed_level d <= 3)%Z ->
  safe_mode_override c ms d = (gc, ds, l, ub, ug) -> (0 <= l <= 3)%Z.
Proof.
  intros H E. unfold safe_mode_override, enforce_safe_mode in E.
  destruct c; [destruct (qlt ms (30 # 100))|]; inversion E; subst; lia.
Qed.

Lemma step_body_served L S A t sim r sim' :
  step_body L S A t sim = inr (r, sim') ->
  r_served_load_kw r = served_load (r_load_kw r) (r_load_shed_level r) /\
  (0 <= r_load_shed_level r <= 3)%Z.
Proof.
  open_step_body.
  match goal with
  | Hd : decide _ _ _ _ _ _ _ = _, Ho : safe_mode_override _ _ _ = _ |- _ =>
      pose proof (override_level_range _ _ _ _ _ _ _ _
                    (decide_level_range_eq _ _ _ _ _ _ _ _ _ Hd) Ho)
  end.
  destruct (power_balance _ _ _ _ _ _) as [[[? ?] ?] ?].
  intros E; inversion E; subst; simpl. split; [reflexivity | assumption].
Qed.

(** C7: at every recorded timestep the served load is the loop's
    [served_load] of the true load and the tier, which equals
    [min(true_load, 30) + max(0, true_load - 30) * (1 - f(tier))], the tier
    being in [0..3]; for a fixed true load the served load is non-increasing
    in the tier, and it always includes the critical floor
    [min(true_load, 30)]. *)
Theorem served_load_tiers :
  (forall sim L S A rs fin,
     run sim L S A = inr (rs, fin) ->
     Forall (fun r =>
       r_served_load_kw r = served_load (r_load_kw r) (r_load_shed_level r) /\
       r_served_load_kw r == claim_served_load (r_load_kw r) (r_load_shed_level r) /\
       (0 <= r_load_shed_level r <= 3)%Z) rs) /\
  (forall true_load t1 t2, (t1 <= t2)%Z ->
     served_load true_load t2 <= served_load true_load t1) /\
  (forall true_load tier, qmin true_load CRITICAL_LOAD_KW <= served_load true_load tier).
Proof.
  split; [|split].
  - intros sim L S A rs fin E. unfold run in E.
    apply (run_loop_invariant (fun _ => True)) with (L := L) (S := S) (A := A)
      (ts := seq 0 (length L)) (sim := sim) (fin := fin); [|exact I | exact E].
    intros t s r s' _ Eb.
    destruct (step_body_served L S A t s r s' Eb) as [H1 H2].
    split; [|exact I]. split; [exact H1|]. split; [|exact H2].
    rewrite H1. apply served_load_claim.
  - exact served_load_mono.
  - exact served_load_floor.
Qed.

Lemma served_load_tiers_witness :
  match run sample_sim [10; 200; 400] [100; 0; 0] [] with
  | inr (rs, _) =>
      Forall (fun r =>
        r_served_load_kw r = served_load (r_load_kw r) (r_load_shed_level r) /\
        r_served_load_kw r == claim_served_load (r_load_kw r) (r_load_shed_level r) /\
        (0 <= r_load_shed_level r <= 3)%Z) rs
  | inl _ => False
  end /\
  served_load 100 3 <= served_load 100 1.
Proof.
  split.
  - destruct (run sample_sim [10; 200; 400] [100; 0; 0] []) as [e|[rs fin]] eqn:E.
    + vm_compute in E. discriminate E.
    + exact (proj1 served_load_tiers sample_sim _ _ _ rs fin E).
  - apply (proj1 (proj2 served_load_tiers)). lia.
Defined.

(** ** The safety invariant checker *)

Lemma if_chain_some {A} (b1 b2 b3 b4 b5 b6 : bool) (m1 m2 m3 m4 m5 m6 : A) :
  (if b1 then Some m1 else if b2 then Some m2 else if b3 then Some m3
   else if b4 then Some m4 else if b5 then Some m5 else if b6 then Some m6
   else None) <> None <-> (b1 || b2 || b3 || b4 || b5 || b6)%bool = true.
Proof.
  destruct b1, b2, b3, b4, b5, b6; simpl; split; congruence.
Qed.

Lemma existsb_eqb_In (x : string) (l : list string) :
  existsb (String.eqb x) l = true <-> In x l.
Proof.
  induction l as [|y l IH]; simpl; [split; [discriminate | contradiction]|].
  rewrite orb_true_iff, String.eqb_eq, IH. split; intros [H|H]; auto.
Qed.

(** C4: [check] raises [SafetyViolation] exactly when one of the six
    conditions holds, and the loop does not catch it: an iteration whose
    record fails [check] ends the run with that exception. *)
Theorem check_raises_iff_and_run_halts :
  (forall soc cmd ga lsl sm,
     check soc cmd ga lsl sm <> None <->
     (3 < lsl)%Z \/
     (lsl = 3%Z /\ 0 < soc /\ sm = false) \/
     (soc < 30 # 100 /\ ga = true) \/
     (soc < 40 # 100 /\ ga = true /\ cmd <> "START") \/
     (sm = true /\ cmd <> "START") \/
     ~ In cmd ["START"; "STOP"; "HOLD"]) /\
  (forall L S A t ts sim r sim' msg,
     step_body L S A t sim = inr (r, sim') ->
     check (r_battery_soc r) (r_generator_cmd r) true (r_load_shed_level r)
           (String.eqb (r_state r) "SAFE_MODE") = Some msg ->
     run_loop L S A (t :: ts) sim = inl (SafetyViolation msg)).
Proof.
  split.
  - intros soc cmd ga lsl sm. unfold check. rewrite if_chain_some.
    rewrite !orb_true_iff, !andb_true_iff, !negb_true_iff, Z.ltb_lt, Z.eqb_eq,
      !qlt_true, String.eqb_neq.
    assert (Hin : existsb (String.eqb cmd) ["START"; "STOP"; "HOLD"] = false <->
                  ~ In cmd ["START"; "STOP"; "HOLD"]).
    { rewrite <- existsb_eqb_In. destruct (existsb _ _); split; congruence. }
    rewrite Hin. tauto.
  - intros L S A t ts sim r sim' msg Eb Ec. simpl. unfold step.
    rewrite Eb, Ec. reflexivity.
Qed.

(** A battery far below the floor that no step discharges (solar covers
    the load exactly). *)
Definition depleted_sim : Simulator :=
  new_simulator 900 (mkBattery 1000 (1 # 10) 50 50) (mkGenerator 2000 false) None.

Definition msg_soc_floor : string :=
  "Battery SOC dropped below absolute minimum while generator was available".

Lemma check_raises_iff_and_run_halts_witness :
  check (1 # 10) "START" true 2 false <> None /\
  match step_body [10] [10] [] 0%nat depleted_sim with
  | inr (r, _) =>
      check (r_battery_soc r) (r_generator_cmd r) true (r_load_shed_level r)
            (String.eqb (r_state r) "SAFE_MODE") = Some msg_soc_floor /\
      run_loop [10] [10] [] [0%nat] depleted_sim = inl (SafetyViolation msg_soc_floor)
  | inl _ => False
  end.
Proof.
  split.
  - apply (proj1 check_raises_iff_and_run_halts).
    right; right; left. split; [simpl; lra | reflexivity].
  - destruct (step_body [10] [10] [] 0%nat depleted_sim) as [e|[r sim']] eqn:E.
    + vm_compute in E. discriminate E.
    + assert (Hc : check (r_battery_soc r) (r_generator_cmd r) true (r_load_shed_level r)
                     (String.eqb (r_state r) "SAFE_MODE") = Some msg_soc_floor).
      { pose proof E as E'. vm_compute in E'. injection E' as Hr Hs.
        subst r. vm_compute. reflexivity. }
      split; [exact Hc|].
      exact (proj2 check_raises_iff_and_run_halts [10] [10] [] 0%nat [] depleted_sim
               r sim' msg_soc_floor E Hc).
Defined.

(** ** The cyber-anomaly detector *)

(** The values returned by successive [evaluate] calls on one manager. *)
Fixpoint evaluate_trace (m : CyberSecurityManager) (frames : list SensorFrame)
    : list bool :=
  match frames with
  | [] => []
  | f :: fs => let '(a, m') := evaluate m f in a :: evaluate_trace m' fs
  end.

Lemma evaluate_returns_alert m f :
  fst (evaluate m f) = alert_active (snd (evaluate m f)).
Proof. reflexivity. Qed.

Lemma evaluate_keeps_alert m f :
  alert_active m = true -> alert_active (snd (evaluate m f)) = true.
Proof.
  intros H. unfold evaluate. cbv zeta. cbn [alert_active snd].
  destruct (fst _); [reflexivity | exact H].
Qed.

Lemma evaluate_trace_all_true m frames :
  alert_active m = true -> Forall (fun a => a = true) (evaluate_trace m frames).
Proof.
  revert m. induction frames as [|f fs IH]; intros m H; cbn [evaluate_trace];
    [constructor|].
  pose proof (evaluate_keeps_alert m f H) as H'.
  pose proof (evaluate_returns_alert m f) as Hr.
  destruct (evaluate m f) as [a m']. cbn [fst snd] in H', Hr.
  constructor; [congruence | exact (IH m' H')].
Qed.

(** C5: alerts latch: once a call to [evaluate] has returned
    [alert_active = true], every later call on the same manager returns
    [true], whatever the frames. *)
Theorem evaluate_alert_latches m frames pre post :
  evaluate_trace m frames = app pre (true :: post) ->
  Forall (fun a => a = true) post.
Proof.
  revert m pre. induction frames as [|f fs IH]; intros m pre E; cbn [evaluate_trace] in E.
  - destruct pre; discriminate E.
  - pose proof (evaluate_returns_alert m f) as Hr.
    destruct (evaluate m f) as [a m'] eqn:Ev. cbn [fst snd] in Hr.
    destruct pre as [|p pre]; cbn [app] in E; injection E as Ea Et.
    + subst a. rewrite <- Et. apply evaluate_trace_all_true. congruence.
    + exact (IH m' pre Et).
Qed.

(** A frame whose primary soc is spoofed to 0.95 against a secure 0.50,
    followed by a clean frame. *)
Definition spoofed_frame : SensorFrame :=
  mkFrame (Some (95 # 100)) (Some (1 # 2)) (Some 100) (Some 100) (Some 0) (Some 0).
Definition clean_frame : SensorFrame :=
  mkFrame (Some (1 # 2)) (Some (1 # 2)) (Some 100) (Some 100) (Some 0) (Some 0).

Lemma evaluate_alert_latches_witness :
  evaluate_trace cyber_init [spoofed_frame; clean_frame] = app [] (true :: [true]) /\
  Forall (fun a => a = true) [true].
Proof.
  split; [vm_compute; reflexivity|].
  apply (evaluate_alert_latches cyber_init [spoofed_frame; clean_frame] []).
  vm_compute. reflexivity.
Defined.

(** The detection rules listed in the spec, against the manager's
    previously observed values: soc out of [0,1]; secure-channel mismatch
    of soc (absolute, 0.05), load (relative, 0.10) and solar (relative,
    0.15); step change above 0.08 in soc, 500 kW in load, 800 kW in solar. *)
Definition spec_detection_rules (m : CyberSecurityManager) (sd : SensorFrame) : bool :=
  opt1 (fun s => qlt s 0 || qlt 1 s) (f_soc sd) ||
  opt2 (fun s ss => qlt (5 # 100) (Qabs (s - ss))) (f_soc sd) (f_soc_secure sd) ||
  opt2 (fun l sec => qlt (10 # 100) (Qabs (l - sec) / qmax 1 (Qabs sec)))
       (f_load_kw sd) (f_load_kw_secure sd) ||
  opt2 (fun l sec => qlt (15 # 100) (Qabs (l - sec) / qmax 1 (Qabs sec)))
       (f_solar_kw sd) (f_solar_kw_secure sd) ||
  opt2 (fun s l => qlt (8 # 100) (Qabs (s - l))) (f_soc sd) (_last_soc m) ||
  opt2 (fun l p => qlt 500 (Qabs (l - p))) (f_load_kw sd) (_last_load m) ||
  opt2 (fun l p => qlt 800 (Qabs (l - p))) (f_solar_kw sd) (_last_solar m).

(** A load reading of -10 kW that agrees with its secure channel. *)
Definition negative_load_frame : SensorFrame :=
  mkFrame None None (Some (-10)) (Some (-10)) None None.

(** C6 (as stated): a negative load reading is flagged by the code even
    though none of the listed rules matches it. *)
Lemma evaluate_anomaly_rules_counterexample :
  ~ (forall m sd, anomaly_now (snd (evaluate m sd)) = true <->
                  spec_detection_rules m sd = true).
Proof.
  intros H. specialize (H cyber_init negative_load_frame).
  assert (Ha : anomaly_now (snd (evaluate cyber_init negative_load_frame)) = true)
    by (vm_compute; reflexivity).
  apply H in Ha. vm_compute in Ha. discriminate Ha.
Qed.

Lemma flag_fst c msg ar : fst (flag c msg ar) = (c || fst ar)%bool.
Proof. unfold flag. destruct c; reflexivity. Qed.

(** C6 (amended): after [evaluate(frame)], [anomaly_now] is true exactly
    when one of the listed rules matches or the load or solar reading is
    negative. *)
Theorem evaluate_anomaly_rules m sd :
  anomaly_now (snd (evaluate m sd)) =
    (spec_detection_rules m sd ||
     opt1 (fun l => qlt l 0) (f_load_kw sd) ||
     opt1 (fun l => qlt l 0) (f_solar_kw sd))%bool.
Proof.
  unfold evaluate, spec_detection_rules. cbv zeta. cbn [anomaly_now snd].
  rewrite !flag_fst. cbn [fst].
  unfold redundant_soc_mismatch, redundant_load_mismatch_frac,
    redundant_solar_mismatch_frac, max_soc_jump_per_step, max_load_jump_kw,
    max_solar_jump_kw.
  btauto.
Qed.

(** ** Replaying the recorded battery bookkeeping *)

(** The spec's pure soc integration: [soc_t = soc_{t-1} + charge_t / capacity
    - discharge_t / capacity], from [(charge_t, discharge_t)] pairs. *)
Fixpoint replay_soc (soc0 cap : Q) (flows : list (Q * Q)) : list Q :=
  match flows with
  | [] => []
  | (c, d) :: rest =>
      let s := soc0 + c / cap - d / cap in s :: replay_soc s cap rest
  end.

Fixpoint qlist_eqb (xs ys : list Q) : bool :=
  match xs, ys with
  | [], [] => true
  | x :: xs', y :: ys' => Qeq_bool x y && qlist_eqb xs' ys'
  | _, _ => false
  end.

(** Does replaying the recorded [battery_charge_kw] / [battery_kw] columns
    from the initial soc give back the recorded [battery_soc] column? *)
Definition replay_reproduces (soc0 cap : Q) (rs : list StepRecord) : bool :=
  qlist_eqb
    (replay_soc soc0 cap (map (fun r => (r_battery_charge_kw r, r_battery_kw r)) rs))
    (map r_battery_soc rs).

(** C8: one step of [sample_sim] (battery 100 kWh at soc 0.95, load 10 kW,
    solar 100 kW): [charge] records 50 kW while the soc is clamped at 1.0,
    so the replay gives 1.45 instead of the recorded 1.0. *)
Theorem run_replay_mismatch :
  match run sample_sim [10] [100] [] with
  | inr (rs, _) =>
      map r_battery_charge_kw rs = [50] /\ map r_battery_kw rs = [0] /\
      map r_battery_soc rs = [1] /\
      replay_reproduces (95 # 100) 100 rs = false
  | inl _ => False
  end.
Proof. vm_compute. repeat split. Qed.

(** * Further properties of the code *)

(** ** The battery, beyond the claims *)

Lemma clamp_min_soc_range m : 0 <= qmax 0 (qmin 1 m) <= 1.
Proof.
  split; [apply qmax_ge_l|].
  pose proof (qmin_le_l 1 m). unfold qmax. qcase; lra.
Qed.

Lemma discharge_energy_nonneg b p dt m :
  0 <= p -> 0 <= max_discharge_kw b -> 0 <= dt -> 0 <= fst (discharge b p dt m).
Proof.
  intros Hp Hmd Hdt. unfold discharge. cbv zeta. cbn [fst].
  apply qmin_glb; [|apply qmax_ge_l].
  apply Qmult_le_0_compat; [apply qmin_glb|]; assumption.
Qed.

(** Charging and discharging keep a battery's soc in [0, 1] (positive
    capacity; non-negative powers, limits and [dt]; any [min_soc], which
    [discharge] clamps into [0, 1]). *)
Theorem battery_ops_keep_soc_range b p dt m :
  0 < capacity b -> 0 <= max_charge_kw b -> 0 <= max_discharge_kw b ->
  0 <= p -> 0 <= dt -> 0 <= soc b <= 1 ->
  (0 <= soc (snd (charge b p dt)) <= 1) /\ (0 <= soc (snd (discharge b p dt m)) <= 1).
Proof.
  intros Hc Hmc Hmd Hp Hdt Hs. split.
  - unfold charge, with_soc. cbv zeta. cbn [snd soc].
    assert (0 <= qmin p (max_charge_kw b) * dt / capacity b).
    { apply Qdiv_nonneg; [|exact Hc].
      apply Qmult_le_0_compat; [apply qmin_glb|]; assumption. }
    split; [apply qmin_glb; lra | apply qmin_le_l].
  - pose proof (discharge_energy_nonneg b p dt m Hp Hmd Hdt) as Ha.
    pose proof (clamp_min_soc_range m) as Hms.
    unfold discharge, with_soc in *. cbv zeta in *. cbn [fst snd soc] in *.
    set (ms := qmax 0 (qmin 1 m)) in *.
    set (a := qmin (qmin p (max_discharge_kw b) * dt)
                   (qmax 0 (soc b * capacity b - ms * capacity b))) in *.
    assert (0 <= a / capacity b) by (apply Qdiv_nonneg; assumption).
    split; [pose proof (qmax_ge_l ms (soc b - a / capacity b)); lra|].
    unfold qmax at 1. qcase; lra.
Qed.

Lemma battery_ops_keep_soc_range_witness :
  (0 <= soc (snd (charge (mkBattery 100 (1 # 2) 50 50) 80 1)) <= 1) /\
  (0 <= soc (snd (discharge (mkBattery 100 (1 # 2) 50 50) 80 1 2)) <= 1).
Proof.
  apply battery_ops_keep_soc_range; simpl; lra.
Defined.

(** Discharging from at or above the floor is exact bookkeeping: the
    returned energy is non-negative, at most the power-limited request and
    at most the energy above the floor, and the soc drops by exactly that
    energy over the capacity. *)
Theorem discharge_exact_above_floor b p dt m :
  0 < capacity b -> 0 <= p -> 0 <= max_discharge_kw b -> 0 <= dt ->
  0 <= m <= 1 -> m <= soc b ->
  let '(a, b') := discharge b p dt m in
  0 <= a /\ a <= qmin p (max_discharge_kw b) * dt /\
  a <= (soc b - m) * capacity b /\ soc b' == soc b - a / capacity b.
Proof.
  intros Hc Hp Hmd Hdt Hm Hs.
  pose proof (discharge_energy_nonneg b p dt m Hp Hmd Hdt) as Ha.
  unfold discharge, with_soc in *. cbv zeta in *. cbn [fst snd soc] in *.
  set (ms := qmax 0 (qmin 1 m)) in *.
  assert (Hms : ms == m) by (apply clamp_min_soc, Hm).
  set (av := qmax 0 (soc b * capacity b - ms * capacity b)) in *.
  assert (Hav : av == (soc b - m) * capacity b).
  { assert (0 <= (soc b - m) * capacity b) by (apply Qmult_le_0_compat; lra).
    assert (Hmc : ms * capacity b == m * capacity b)
      by (apply Qmult_comp; [exact Hms | reflexivity]).
    unfold av, qmax. qcase; lra. }
  set (a := qmin (qmin p (max_discharge_kw b) * dt) av) in *.
  assert (Hle : a <= (soc b - m) * capacity b)
    by (rewrite <- Hav; apply qmin_le_r).
  assert (Hd : a / capacity b <= soc b - m) by (apply Qle_shift_div_r; assumption).
  split; [exact Ha|]. split; [apply qmin_le_l|]. split; [exact Hle|].
  unfold qmax. qcase; [reflexivity | lra].
Qed.

Lemma discharge_exact_above_floor_witness :
  let '(a, b') := discharge (mkBattery 100 (1 # 2) 50 50) 80 1 (30 # 100) in
  0 <= a /\ a <= qmin 80 50 * 1 /\ a <= ((1 # 2) - (30 # 100)) * 100 /\
  soc b' == (1 # 2) - a / 100.
Proof.
  apply (discharge_exact_above_floor (mkBattery 100 (1 # 2) 50 50)); simpl; lra.
Defined.

(** ** The controller, beyond the claims *)

(** Split [decide] into its seven exits: safe mode, predictive,
    hard preemption, power deficit, EMERGENCY, STRESSED, NORMAL. *)
Ltac decide_cases cyb fc bat gen :=
  unfold decide;
  destruct cyb;
  [| destruct (match fc with | Some (_ :: _) => _ | _ => false end) eqn:Epred;
     [| destruct (gen && qle (soc bat) SOC_CRITICAL_PREEMPT) eqn:Ehard;
        [| destruct (qlt _ _ && gen) eqn:Edef;
           [| destruct (qlt (soc bat) SOC_EMERGENCY_MIN) eqn:E4;
              [| destruct (qlt (soc bat) SOC_STRESSED_MIN) eqn:E6]]]]].

(** Sufficient conditions for [check] to return normally. *)
Lemma check_none_of soc cmd ga lsl sm :
  (lsl <= 3)%Z -> (lsl = 3%Z -> soc <= 0 \/ sm = true) ->
  (ga = true -> 30 # 100 <= soc) ->
  (ga = true -> soc < 40 # 100 -> cmd = "START") ->
  (sm = true -> cmd = "START") -> In cmd ["START"; "STOP"; "HOLD"] ->
  check soc cmd ga lsl sm = None.
Proof.
  intros H1 H2 H3 H4 H5 H6.
  destruct (check soc cmd ga lsl sm) eqn:E; [exfalso|reflexivity].
  assert (Hn : check soc cmd ga lsl sm <> None) by congruence.
  unfold check in Hn. rewrite if_chain_some in Hn.
  rewrite !orb_true_iff, !andb_true_iff, !negb_true_iff, Z.ltb_lt, Z.eqb_eq,
    !qlt_true, String.eqb_neq in Hn.
  rewrite <- existsb_eqb_In in H6.
  destruct Hn as [[[[[Hn|Hn]|Hn]|Hn]|Hn]|Hn].
  - lia.
  - destruct Hn as [[Ha Hb] Hc]. destruct (H2 Hb); [lra | congruence].
  - destruct Hn as [Ha Hb]. specialize (H3 Hb). lra.
  - destruct Hn as [[Ha Hb] Hc]. exact (Hc (H4 Hb Ha)).
  - destruct Hn as [Ha Hb]. exact (Hb (H5 Ha)).
  - congruence.
Qed.

(** Every decision [decide] returns passes [SafetyInvariants.check] on the
    same soc, generator availability and [safe_mode] flag, unless the
    generator is available and the soc is already below 0.30. *)
Theorem decide_passes_check st solar load bat fc gen cyb :
  (gen = true -> 30 # 100 <= soc bat) ->
  let d := snd (decide st solar load bat fc gen cyb) in
  check (soc bat) (generator_cmd d) gen (load_shed_level d) (safe_mode d) = None.
Proof.
  intros Hg. decide_cases cyb fc bat gen; cbn [snd generator_cmd load_shed_level safe_mode];
    unfold _safe_mode_action, LOAD_SHED_NONE, LOAD_SHED_T1, LOAD_SHED_T2, LOAD_SHED_T3;
    cbn [snd generator_cmd load_shed_level safe_mode];
    (apply check_none_of;
    [lia | intros; first [right; reflexivity | lia] | exact Hg
    | intros Hga Hs; first [reflexivity | rewrite Hga; reflexivity
                           | apply qlt_false in E4; unfold SOC_EMERGENCY_MIN in E4; lra]
    | intros Hsm; first [reflexivity | discriminate]
    | first [destruct gen | idtac]; simpl; auto]).
Qed.

Lemma decide_passes_check_witness :
  check (soc (mkBattery 100 (1 # 2) 50 50))
    (generator_cmd (snd (decide NORMAL 0 100 (mkBattery 100 (1 # 2) 50 50) None true false)))
    true
    (load_shed_level (snd (decide NORMAL 0 100 (mkBattery 100 (1 # 2) 50 50) None true false)))
    (safe_mode (snd (decide NORMAL 0 100 (mkBattery 100 (1 # 2) 50 50) None true false)))
  = None.
Proof.
  apply (decide_passes_check NORMAL 0 100 (mkBattery 100 (1 # 2) 50 50) None true false).
  intros _. simpl. lra.
Defined.

(** The [state] field of every decision is the value of the state the
    controller moves to. *)
Theorem decide_state_reported st solar load bat fc gen cyb :
  state (snd (decide st solar load bat fc gen cyb))
  = state_value (fst (decide st solar load bat fc gen cyb)).
Proof.
  decide_cases cyb fc bat gen; reflexivity.
Qed.

(** With no generator and no anomaly, the decision is the plain soc tier:
    NORMAL/STOP/0 from 0.60, STRESSED/START/1 from 0.40, else
    EMERGENCY/HOLD/2, whatever the load, the solar and the forecast. *)
Theorem decide_generator_unavailable st solar load bat fc :
  let r := decide st solar load bat fc false false in
  (60 # 100 <= soc bat ->
     fst r = NORMAL /\ generator_cmd (snd r) = "STOP" /\ load_shed_level (snd r) = 0%Z) /\
  (40 # 100 <= soc bat < 60 # 100 ->
     fst r = STRESSED /\ generator_cmd (snd r) = "START" /\ load_shed_level (snd r) = 1%Z) /\
  (soc bat < 40 # 100 ->
     fst r = EMERGENCY /\ generator_cmd (snd r) = "HOLD" /\ load_shed_level (snd r) = 2%Z).
Proof.
  cbv zeta. unfold decide.
  destruct fc as [[|x l]|]; cbn [andb]; rewrite andb_false_r;
    unfold SOC_EMERGENCY_MIN, SOC_STRESSED_MIN;
    repeat qcase;
    cbn [fst snd generator_cmd load_shed_level];
    unfold LOAD_SHED_NONE, LOAD_SHED_T1, LOAD_SHED_T2;
    (split; [|split]); intros; first [solve [repeat split] | lra].
Qed.

Lemma decide_generator_unavailable_witness :
  fst (decide NORMAL 0 100 (mkBattery 100 (1 # 2) 50 50) (Some [500]) false false) = STRESSED.
Proof.
  destruct (decide_generator_unavailable NORMAL 0 100 (mkBattery 100 (1 # 2) 50 50)
              (Some [500])) as [_ [H _]].
  apply H. simpl. lra.
Defined.

(** What the generator command tells: STOP only without an anomaly and
    with soc at least 0.60; HOLD only without an anomaly, without a
    generator and with soc below 0.40; no command other than START, STOP
    and HOLD. *)
Theorem decide_generator_cmd_cases st solar load bat fc gen cyb :
  let d := snd (decide st solar load bat fc gen cyb) in
  (generator_cmd d = "STOP" -> cyb = false /\ 60 # 100 <= soc bat) /\
  (generator_cmd d = "HOLD" -> cyb = false /\ gen = false /\ soc bat < 40 # 100) /\
  In (generator_cmd d) ["START"; "STOP"; "HOLD"].
Proof.
  cbv zeta. decide_cases cyb fc bat gen;
    cbn [snd generator_cmd]; unfold _safe_mode_action; cbn [generator_cmd].
  all: try (split; [discriminate | split; [discriminate | simpl; auto]]).
  - (* EMERGENCY *)
    apply qlt_true in E4. unfold SOC_EMERGENCY_MIN in E4.
    destruct gen; cbn [generator_cmd];
      [split; [discriminate | split; [discriminate | simpl; auto]]
      | split; [discriminate | split; [intros; repeat split; lra | simpl; auto]]].
  - (* NORMAL *)
    apply qlt_false in E6. unfold SOC_STRESSED_MIN in E6.
    split; [intros; split; [reflexivity | lra] | split; [discriminate | simpl; auto]].
Qed.

Lemma decide_generator_cmd_cases_witness :
  let b := mkBattery 100 (8 # 10) 50 50 in
  false = false /\ 60 # 100 <= soc b.
Proof.
  cbv zeta.
  apply (proj1 (decide_generator_cmd_cases NORMAL 100 100 (mkBattery 100 (8 # 10) 50 50)
                  None true false)).
  vm_compute. reflexivity.
Defined.

(** The forecast is not read when the generator is unavailable, when the
    soc is at least 0.60, or when the forecast is an empty list: the
    decision is then the one taken without a forecast. *)
Theorem decide_forecast_irrelevant st solar load bat fc gen cyb :
  gen = false \/ 60 # 100 <= soc bat \/ fc = Some [] ->
  decide st solar load bat fc gen cyb = decide st solar load bat None gen cyb.
Proof.
  intros H. unfold decide.
  destruct fc as [[|x l]|]; try reflexivity.
  destruct H as [H|[H|H]]; [subst gen; reflexivity | | discriminate].
  destruct gen; [|reflexivity].
  unfold SOC_STRESSED_MIN.
  destruct (qlt (soc bat) (60 # 100)) eqn:E; [apply qlt_true in E; lra|].
  rewrite andb_false_r. reflexivity.
Qed.

Lemma decide_forecast_irrelevant_witness :
  decide NORMAL 0 100 (mkBattery 100 (1 # 2) 50 50) (Some [500; 500]) false false
  = decide NORMAL 0 100 (mkBattery 100 (1 # 2) 50 50) None false false.
Proof.
  apply decide_forecast_irrelevant. left. reflexivity.
Defined.

(** ** The detector, beyond the claims *)

(** The nine reasons [evaluate] can record. *)
Definition cyber_messages : list string :=
  ["SOC sensor spoofing detected (out-of-range)";
   "SOC sensor spoofing detected (mismatch vs secure channel)";
   "SOC anomaly detected (implausible step change)";
   "Load sensor spoofing detected (negative)";
   "Load sensor spoofing detected (mismatch vs secure channel)";
   "Load anomaly detected (implausible step change)";
   "Solar sensor spoofing detected (negative)";
   "Solar sensor spoofing detected (mismatch vs secure channel)";
   "Solar anomaly detected (implausible step change)"].

(** The local [(anomaly, reason)] pair: both unset, or both set. *)
Definition flags_inv (ar : bool * option string) : Prop :=
  (fst ar = false /\ snd ar = None) \/
  (fst ar = true /\ exists msg, snd ar = Some msg /\ In msg cyber_messages).

Lemma flag_inv c msg ar :
  In msg cyber_messages -> flags_inv ar -> flags_inv (flag c msg ar).
Proof.
  intros Hm Hi. unfold flag. destruct c; [|exact Hi].
  right. split; [reflexivity | exists msg; split; [reflexivity | exact Hm]].
Qed.

(** The reason after [evaluate]: one of the nine messages when the call
    flagged an anomaly, else the reason held before the call. *)
Theorem evaluate_reason m sd :
  let m' := snd (evaluate m sd) in
  if anomaly_now m' then exists msg, creason m' = Some msg /\ In msg cyber_messages
  else creason m' = creason m.
Proof.
  unfold evaluate. cbv zeta. cbn [snd anomaly_now creason].
  lazymatch goal with
  | |- (if fst ?X then _ else _) =>
      assert (HI : flags_inv X)
        by (repeat (apply flag_inv; [simpl; tauto |]); left; split; reflexivity);
      destruct X as [a r]
  end.
  destruct HI as [[Ha Hr] | [Ha [msg [Hr Hin]]]]; cbn [fst snd] in *; subst; eauto.
Qed.

(** A frame whose primary soc reads 1.2. *)
Definition spoofed_oor_frame : SensorFrame :=
  mkFrame (Some (12 # 10)) (Some (1 # 2)) (Some 100) (Some 100) (Some 0) (Some 0).

(** An out-of-range soc reading is reported as such: that rule is checked
    first and the later rules are skipped once an anomaly is set. *)
Theorem evaluate_out_of_range_first m sd s :
  f_soc sd = Some s -> s < 0 \/ 1 < s ->
  anomaly_now (snd (evaluate m sd)) = true /\
  creason (snd (evaluate m sd)) = Some "SOC sensor spoofing detected (out-of-range)".
Proof.
  intros Hs Hr.
  assert (Hc : (qlt s 0 || qlt 1 s)%bool = true).
  { apply orb_true_iff. destruct Hr; [left | right]; apply qlt_true; exact H. }
  destruct sd as [so ss l ls sl sls]. cbn [f_soc] in Hs. subst so.
  unfold evaluate. cbn [f_soc opt1]. rewrite Hc. split; reflexivity.
Qed.

Lemma evaluate_out_of_range_first_witness :
  anomaly_now (snd (evaluate cyber_init spoofed_oor_frame)) = true /\
  creason (snd (evaluate cyber_init spoofed_oor_frame))
  = Some "SOC sensor spoofing detected (out-of-range)".
Proof.
  apply (evaluate_out_of_range_first cyber_init spoofed_oor_frame (12 # 10));
    [reflexivity | right; lra].
Defined.

(** A frame without any reading flags nothing and leaves the alert, the
    reason and the last-seen values as they were. *)
Theorem evaluate_empty_frame m :
  evaluate m (mkFrame None None None None None None)
  = (alert_active m,
     mkCyber (alert_active m) false (creason m) (_last_soc m) (_last_load m) (_last_solar m)).
Proof.
  destruct m. reflexivity.
Qed.

(** The [anomaly_now] values of successive [evaluate] calls. *)
Fixpoint anomaly_trace (m : CyberSecurityManager) (frames : list SensorFrame)
    : list bool :=
  match frames with
  | [] => []
  | f :: fs => anomaly_now (snd (evaluate m f)) :: anomaly_trace (snd (evaluate m f)) fs
  end.

Lemma evaluate_alert_step m f :
  alert_active (snd (evaluate m f)) = (anomaly_now (snd (evaluate m f)) || alert_active m)%bool.
Proof. reflexivity. Qed.

(** After a sequence of [evaluate] calls the alert is active exactly when
    it was active before or one of the calls flagged an anomaly: it is
    never raised otherwise and never cleared. *)
Theorem evaluate_alert_iff_some_anomaly m frames :
  alert_active (fold_left (fun m f => snd (evaluate m f)) frames m)
  = (alert_active m || existsb (fun a => a) (anomaly_trace m frames))%bool.
Proof.
  revert m. induction frames as [|f fs IH]; intros m; cbn [fold_left anomaly_trace existsb].
  - rewrite orb_false_r. reflexivity.
  - rewrite IH, evaluate_alert_step.
    destruct (anomaly_now (snd (evaluate m f))), (alert_active m); reflexivity.
Qed.

(** ** The loop's power balance, beyond the claims *)

Lemma discharge_energy_le b p dt m :
  fst (discharge b p dt m) <= qmin p (max_discharge_kw b) * dt.
Proof. unfold discharge. cbv zeta. cbn [fst]. apply qmin_le_l. Qed.

Lemma qmax0_pos x : 0 < qmax 0 x -> 0 < x.
Proof. unfold qmax. qcase; lra. Qed.

Lemma qmax0_id x : 0 <= x -> qmax 0 x == x.
Proof. intros H. unfold qmax. qcase; lra. Qed.

Lemma qmax0_zero x : x <= 0 -> qmax 0 x == 0.
Proof. intros H. unfold qmax. qcase; lra. Qed.

Lemma power_balance_params b g solar served ub ug :
  capacity (snd (power_balance b g solar served ub ug)) = capacity b /\
  max_charge_kw (snd (power_balance b g solar served ub ug)) = max_charge_kw b /\
  max_discharge_kw (snd (power_balance b g solar served ub ug)) = max_discharge_kw b.
Proof.
  unfold power_balance. cbv zeta.
  destruct (if is_on g && ug then _ else _) as [gk rem].
  assert (Hd : let p := (if qlt 0 rem && ub then discharge b rem 1 (30 # 100) else (0, b)) in
    capacity (snd p) = capacity b /\ max_charge_kw (snd p) = max_charge_kw b /\
    max_discharge_kw (snd p) = max_discharge_kw b)
    by (cbv zeta; destruct (qlt 0 rem && ub); repeat split).
  destruct (if qlt 0 rem && ub then _ else _) as [dk b1]. cbn [snd] in Hd.
  destruct (qlt 0 (qmax 0 (solar - served)) && ub); exact Hd.
Qed.

(** The generator, the battery and the charger share out the power
    balance as the loop writes it: the generator gives between 0 and its
    rating, and nothing when it is off or not allowed; generator and
    battery together give at most the deficit [max(0, served - solar)];
    the charger takes at most the surplus [max(0, solar - served)]; the
    battery is never charged and discharged in one step, and is left
    alone when [use_battery] is false (non-negative rating and limits). *)
Theorem power_balance_dispatch b g solar served ub ug :
  0 <= gen_max_power_kw g -> 0 <= max_discharge_kw b -> 0 <= max_charge_kw b ->
  let '(gk, dk, ck, b') := power_balance b g solar served ub ug in
  0 <= gk <= gen_max_power_kw g /\ (is_on g && ug = false -> gk == 0) /\
  0 <= dk /\ gk + dk <= qmax 0 (served - solar) /\
  0 <= ck <= qmax 0 (solar - served) /\ (ck == 0 \/ dk == 0) /\
  (ub = false -> dk == 0 /\ ck == 0).
Proof.
  intros Hg Hmd Hmc. unfold power_balance. cbv zeta.
  set (R := qmax 0 (served - solar)).
  set (E := qmax 0 (solar - served)).
  assert (HR : 0 <= R) by apply qmax_ge_l.
  assert (HE : 0 <= E) by apply qmax_ge_l.
  assert (HER : 0 < E -> R == 0).
  { intros HE'. apply qmax0_pos in HE'. apply qmax0_zero. lra. }
  assert (HG : let p := (if is_on g && ug
                         then (qmin (gen_max_power_kw g) R,
                               qmax 0 (R - qmin (gen_max_power_kw g) R))
                         else (0, R)) in
               0 <= fst p <= gen_max_power_kw g /\
               (is_on g && ug = false -> fst p == 0) /\
               0 <= snd p /\ fst p + snd p == R).
  { cbv zeta. destruct (is_on g && ug); cbn [fst snd].
    - pose proof (qmin_le_l (gen_max_power_kw g) R).
      pose proof (qmin_le_r (gen_max_power_kw g) R).
      pose proof (qmin_glb (gen_max_power_kw g) R 0 Hg HR).
      rewrite (qmax0_id (R - qmin (gen_max_power_kw g) R)) by lra.
      repeat split; try lra; discriminate.
    - repeat split; lra. }
  destruct (if is_on g && ug then _ else _) as [gk rem]. cbn [fst snd] in HG.
  destruct HG as (HG1 & HG2 & HG3 & HG4).
  assert (HD : let p := (if qlt 0 rem && ub then discharge b rem 1 (30 # 100)
                         else (0, b)) in
               0 <= fst p <= rem /\ max_charge_kw (snd p) = max_charge_kw b /\
               (rem == 0 -> fst p == 0) /\ (ub = false -> fst p == 0)).
  { cbv zeta. destruct (qlt 0 rem) eqn:Er; [apply qlt_true in Er | apply qlt_false in Er];
      destruct ub; cbn [andb fst snd]; try (repeat split; lra).
    pose proof (discharge_energy_nonneg b rem 1 (30 # 100)) as H1.
    pose proof (discharge_energy_le b rem 1 (30 # 100)) as H2.
    pose proof (qmin_le_l rem (max_discharge_kw b)).
    repeat split; try lra; try discriminate; try (apply H1; lra). }
  destruct (if qlt 0 rem && ub then _ else _) as [dk b1]. cbn [fst snd] in HD.
  destruct HD as (HD1 & HD2 & HD3 & HD4).
  assert (HC : let p := (if qlt 0 E && ub then charge b1 E 1 else (0, b1)) in
               0 <= fst p <= E /\ (fst p == 0 \/ 0 < E) /\ (ub = false -> fst p == 0)).
  { cbv zeta. destruct (qlt 0 E) eqn:Ee; [apply qlt_true in Ee | apply qlt_false in Ee];
      destruct ub; cbn [andb fst snd]; try (repeat split; try lra; left; lra).
    unfold charge. cbv zeta. cbn [fst].
    pose proof (qmin_le_l E (max_charge_kw b1)).
    pose proof (qmin_glb E (max_charge_kw b1) 0 HE ltac:(rewrite HD2; exact Hmc)).
    repeat split; try lra; discriminate. }
  destruct (if qlt 0 E && ub then _ else _) as [ck b2]. cbn [fst] in HC.
  destruct HC as (HC1 & HC2 & HC3).
  split; [exact HG1|]. split; [exact HG2|]. split; [lra|]. split; [lra|].
  split; [exact HC1|]. split.
  - destruct HC2 as [HC2|HC2]; [left; exact HC2 | right].
    apply HD3. specialize (HER HC2). lra.
  - intros Hu; split; [apply HD4 | apply HC3]; exact Hu.
Qed.

Lemma power_balance_dispatch_witness :
  let '(gk, dk, ck, b') :=
    power_balance (mkBattery 100 (1 # 2) 50 50) (mkGenerator 20 true) 10 100 true true in
  0 <= gk <= 20 /\ (true && true = false -> gk == 0) /\
  0 <= dk /\ gk + dk <= qmax 0 (100 - 10) /\
  0 <= ck <= qmax 0 (10 - 100) /\ (ck == 0 \/ dk == 0) /\
  (true = false -> dk == 0 /\ ck == 0).
Proof.
  apply (power_balance_dispatch (mkBattery 100 (1 # 2) 50 50) (mkGenerator 20 true)
           10 100 true true); simpl; lra.
Defined.

(** ** The simulation loop, beyond the claims *)

Lemma override_use_generator c ms d gc ds l ub ug :
  safe_mode_override c ms d = (gc, ds, l, ub, ug) -> ug = true.
Proof.
  intros E. unfold safe_mode_override, enforce_safe_mode in E.
  destruct c; [destruct (qlt ms (30 # 100))|]; inversion E; reflexivity.
Qed.

Lemma override_cyber ms d gc ds l ub ug :
  safe_mode_override true ms d = (gc, ds, l, ub, ug) ->
  gc = "START" /\ ds = "SAFE_MODE" /\ l = 3%Z.
Proof.
  intros E. unfold safe_mode_override, enforce_safe_mode in E.
  destruct (qlt ms (30 # 100)); inversion E; repeat split.
Qed.

Lemma override_no_cyber ms d gc ds l ub ug :
  safe_mode_override false ms d = (gc, ds, l, ub, ug) ->
  gc = generator_cmd d /\ ds = state d /\ l = load_shed_level d /\ ub = true /\ ug = true.
Proof. intros E. unfold safe_mode_override in E. inversion E. repeat split. Qed.

Lemma apply_generator_cmd_max gc g :
  gen_max_power_kw (apply_generator_cmd gc g) = gen_max_power_kw g.
Proof.
  unfold apply_generator_cmd.
  destruct (String.eqb gc "START"); [|destruct (String.eqb gc "STOP")]; reflexivity.
Qed.

(** With the generator on and allowed and rated for the whole deficit,
    solar, generator and battery cover the served load. *)
Lemma power_balance_covers b g solar served ub ug :
  is_on g && ug = true -> qmax 0 (served - solar) <= gen_max_power_kw g ->
  0 <= max_discharge_kw b ->
  let '(gk, dk, _, _) := power_balance b g solar served ub ug in
  served <= solar + gk + dk.
Proof.
  intros Hon HR Hmd. unfold power_balance. rewrite Hon. cbv zeta.
  set (R := qmax 0 (served - solar)) in *.
  assert (HR0 : 0 <= R) by apply qmax_ge_l.
  assert (HRs : served - solar <= R) by apply qmax_ge_r.
  assert (Hq : qmin (gen_max_power_kw g) R == R) by (unfold qmin; qcase; lra).
  assert (HD : 0 <= fst (if qlt 0 (qmax 0 (R - qmin (gen_max_power_kw g) R)) && ub
                         then discharge b (qmax 0 (R - qmin (gen_max_power_kw g) R)) 1 (30 # 100)
                         else (0, b))).
  { destruct (qlt 0 (qmax 0 (R - qmin (gen_max_power_kw g) R)) && ub); [|cbn [fst]; lra].
    apply discharge_energy_nonneg; [apply qmax_ge_l | exact Hmd | lra]. }
  destruct (if qlt 0 (qmax 0 (R - qmin (gen_max_power_kw g) R)) && ub then _ else _)
    as [dk b1].
  cbn [fst] in HD.
  destruct (if qlt 0 (qmax 0 (solar - served)) && ub then _ else _) as [ck b2].
  lra.
Qed.

(** Ratings and limits that the loop never changes. *)
Definition limits_ok (G : Q) (sim : Simulator) : Prop :=
  gen_max_power_kw (sim_generator sim) = G /\ 0 <= G /\
  0 <= max_discharge_kw (sim_battery sim) /\ 0 <= max_charge_kw (sim_battery sim).

(** The dispatch recorded at one step, for a generator rated [G]. *)
Definition dispatch_ok (G : Q) (r : StepRecord) : Prop :=
  0 <= r_generator_kw r <= G /\ (r_generator_on r = false -> r_generator_kw r == 0) /\
  0 <= r_battery_kw r /\
  r_generator_kw r + r_battery_kw r <= qmax 0 (r_served_load_kw r - r_solar_kw r) /\
  0 <= r_battery_charge_kw r <= qmax 0 (r_solar_kw r - r_served_load_kw r) /\
  (r_battery_charge_kw r == 0 \/ r_battery_kw r == 0).

Lemma step_body_dispatch L S A t sim r sim' G :
  limits_ok G sim -> step_body L S A t sim = inr (r, sim') ->
  (dispatch_ok G r /\
   (r_generator_on r = true -> qmax 0 (r_served_load_kw r - r_solar_kw r) <= G ->
    r_blackout r = false)) /\ limits_ok G sim'.
Proof.
  intros (HG & HG0 & Hmd & Hmc). open_step_body.
  match goal with
  | Ho : safe_mode_override _ _ _ = _ |- _ => apply override_use_generator in Ho; rewrite Ho
  end.
  match goal with
  | |- context [power_balance ?b ?g ?s ?sv ?u1 true] =>
      assert (Hgm : gen_max_power_kw g = G) by (rewrite apply_generator_cmd_max; exact HG);
      pose proof (power_balance_dispatch b g s sv u1 true
                    ltac:(rewrite Hgm; exact HG0) Hmd Hmc) as HD;
      pose proof (power_balance_covers b g s sv u1 true) as HC;
      pose proof (power_balance_params b g s sv u1 true) as HP;
      destruct (power_balance b g s sv u1 true) as [[[gk dk] ck] b']
  end.
  cbn [snd] in HP. rewrite andb_true_r in HD, HC.
  intros E; injection E as Er Es; subst r sim'.
  unfold dispatch_ok, limits_ok.
  cbn [r_generator_kw r_generator_on r_battery_kw r_served_load_kw r_solar_kw
       r_battery_charge_kw r_blackout sim_generator sim_battery].
  destruct HD as (HD1 & HD2 & HD3 & HD4 & HD5 & HD6 & _).
  destruct HP as (_ & HP2 & HP3).
  rewrite Hgm in HD1. rewrite HP2, HP3.
  split; [split|].
  - repeat split; try lra; assumption.
  - intros Hon Hcov. rewrite Hgm in HC. specialize (HC Hon Hcov Hmd).
    apply qlt_false. unfold POWER_EPS_KW. lra.
  - repeat split; assumption.
Qed.

(** In every run that completes, with a generator rating [G] and battery
    limits that are non-negative, every recorded dispatch is within bounds:
    generator output between 0 and [G] and 0 when it is off; generator and
    battery together at most the deficit [max(0, served - solar)]; the
    charge at most the surplus [max(0, solar - served)]; never charge and
    discharge in one step. *)
Theorem run_dispatch_bounds sim L S A rs fin :
  0 <= gen_max_power_kw (sim_generator sim) -> 0 <= max_discharge_kw (sim_battery sim) ->
  0 <= max_charge_kw (sim_battery sim) ->
  run sim L S A = inr (rs, fin) ->
  Forall (dispatch_ok (gen_max_power_kw (sim_generator sim))) rs.
Proof.
  intros Hg Hmd Hmc. unfold run.
  apply (run_loop_invariant (limits_ok (gen_max_power_kw (sim_generator sim)))).
  - intros t s r s' HI Eb.
    destruct (step_body_dispatch L S A t s r s' _ HI Eb) as [[HP _] HI'].
    exact (conj HP HI').
  - repeat split; assumption.
Qed.

Lemma run_dispatch_bounds_witness :
  match run sample_sim [10; 200; 400] [100; 0; 0] [] with
  | inr (rs, _) => Forall (dispatch_ok 2000) rs
  | inl _ => False
  end.
Proof.
  destruct (run sample_sim [10; 200; 400] [100; 0; 0] []) as [e|[rs fin]] eqn:E.
  - vm_compute in E. discriminate E.
  - apply (run_dispatch_bounds sample_sim [10; 200; 400] [100; 0; 0] [] rs fin);
      [simpl; lra | simpl; lra | simpl; lra | exact E].
Defined.

(** In every run that completes (non-negative generator rating [G] and
    battery discharge limit), no step whose generator is on and rated for
    the deficit left by solar records a blackout. *)
Theorem run_no_blackout_when_generator_covers sim L S A rs fin :
  0 <= gen_max_power_kw (sim_generator sim) -> 0 <= max_discharge_kw (sim_battery sim) ->
  0 <= max_charge_kw (sim_battery sim) ->
  run sim L S A = inr (rs, fin) ->
  Forall (fun r => r_generator_on r = true ->
                   qmax 0 (r_served_load_kw r - r_solar_kw r) <= gen_max_power_kw (sim_generator sim) ->
                   r_blackout r = false) rs.
Proof.
  intros Hg Hmd Hmc. unfold run.
  apply (run_loop_invariant (limits_ok (gen_max_power_kw (sim_generator sim)))).
  - intros t s r s' HI Eb.
    destruct (step_body_dispatch L S A t s r s' _ HI Eb) as [[_ HP] HI'].
    exact (conj HP HI').
  - repeat split; assumption.
Qed.

Lemma run_no_blackout_when_generator_covers_witness :
  match run sample_sim [10; 200; 400] [100; 0; 0] [] with
  | inr (rs, _) => Forall (fun r => r_generator_on r = true ->
                     qmax 0 (r_served_load_kw r - r_solar_kw r) <= 2000 ->
                     r_blackout r = false) rs
  | inl _ => False
  end.
Proof.
  destruct (run sample_sim [10; 200; 400] [100; 0; 0] []) as [e|[rs fin]] eqn:E.
  - vm_compute in E. discriminate E.
  - apply (run_no_blackout_when_generator_covers sample_sim [10; 200; 400] [100; 0; 0] []
             rs fin); [simpl; lra | simpl; lra | simpl; lra | exact E].
Defined.

Lemma step_body_cyber_override L S A t sim r sim' :
  step_body L S A t sim = inr (r, sim') ->
  r_cyber_alert r = true ->
  r_generator_cmd r = "START" /\ r_state r = "SAFE_MODE" /\
  r_load_shed_level r = 3%Z /\ r_generator_on r = true.
Proof.
  open_step_body.
  destruct (power_balance _ _ _ _ _ _) as [[[? ?] ?] ?].
  intros E; injection E as Er Es; subst r sim'.
  cbn [r_cyber_alert r_generator_cmd r_state r_load_shed_level r_generator_on].
  intros Hc; subst.
  match goal with
  | Ho : safe_mode_override true _ _ = _ |- _ =>
      destruct (override_cyber _ _ _ _ _ _ _ Ho) as (-> & -> & ->)
  end.
  repeat split.
Qed.

(** Once the detector's alert is active at a recorded step, that step ran
    the SAFE_MODE override: command START, state SAFE_MODE, tier 3 and the
    generator on. *)
Theorem run_cyber_alert_overrides sim L S A rs fin :
  run sim L S A = inr (rs, fin) ->
  Forall (fun r => r_cyber_alert r = true ->
                   r_generator_cmd r = "START" /\ r_state r = "SAFE_MODE" /\
                   r_load_shed_level r = 3%Z /\ r_generator_on r = true) rs.
Proof.
  unfold run. apply (run_loop_invariant (fun _ => True)); [|exact I].
  intros t s r s' _ Eb. split; [|exact I].
  exact (step_body_cyber_override L S A t s r s' Eb).
Qed.

(** A soc spoof to 0.50 from step 1 on. *)
Definition soc_spoof_attack : Attack :=
  mkAttack (Some "soc_spoof") 1 (-1) (Some (1 # 2)) None None.

Lemma run_cyber_alert_overrides_witness :
  match run sample_sim [10; 200; 400] [100; 0; 0] [soc_spoof_attack] with
  | inr (rs, _) => Forall (fun r => r_cyber_alert r = true ->
                     r_generator_cmd r = "START" /\ r_state r = "SAFE_MODE" /\
                     r_load_shed_level r = 3%Z /\ r_generator_on r = true) rs
  | inl _ => False
  end.
Proof.
  destruct (run sample_sim [10; 200; 400] [100; 0; 0] [soc_spoof_attack])
    as [e|[rs fin]] eqn:E.
  - vm_compute in E. discriminate E.
  - exact (run_cyber_alert_overrides sample_sim [10; 200; 400] [100; 0; 0]
             [soc_spoof_attack] rs fin E).
Defined.

(** An attack either does not apply or marks the step as attacked. *)
Lemma apply_attack_cases t l s acc a :
  apply_attack t l s acc a = acc \/ fst (fst (fst (apply_attack t l s acc a))) = true.
Proof.
  destruct acc as [[[act ms] sl] ss]. unfold apply_attack.
  destruct (negb _); [left; reflexivity | right].
  destruct (a_type a) as [str|]; [|reflexivity].
  repeat (cbn; match goal with
               | |- context [match ?x with _ => _ end] => is_var x; destruct x
               end); reflexivity.
Qed.

Lemma apply_attack_keeps_active t l s acc a :
  fst (fst (fst acc)) = true -> fst (fst (fst (apply_attack t l s acc a))) = true.
Proof.
  intros H. destruct (apply_attack_cases t l s acc a) as [E|E]; [rewrite E|]; exact E || exact H.
Qed.

Lemma attack_fold_keeps_active t l s attacks : forall acc,
  fst (fst (fst acc)) = true ->
  fst (fst (fst (fold_left (apply_attack t l s) attacks acc))) = true.
Proof.
  induction attacks as [|a rest IH]; intros acc H; [exact H|].
  cbn [fold_left]. apply IH, apply_attack_keeps_active, H.
Qed.

(** No attack applied: the sensed values are the initial ones. *)
Lemma attack_fold_inactive t l s attacks : forall acc,
  fst (fst (fst (fold_left (apply_attack t l s) attacks acc))) = false ->
  fold_left (apply_attack t l s) attacks acc = acc.
Proof.
  induction attacks as [|a rest IH]; intros acc H; [reflexivity|].
  cbn [fold_left] in *.
  destruct (apply_attack_cases t l s acc a) as [E|E].
  - rewrite E in *. exact (IH acc H).
  - rewrite (attack_fold_keeps_active t l s rest _ E) in H. discriminate H.
Qed.

Lemma step_body_no_attack L S A t sim r sim' :
  step_body L S A t sim = inr (r, sim') ->
  r_attack_active r = false ->
  r_sensed_load_kw r = r_load_kw r /\ r_sensed_solar_kw r = r_solar_kw r.
Proof.
  unfold step_body.
  destruct (nth_error L t) as [tl|]; [|intro; discriminate].
  destruct (nth_error S t) as [sr|]; [|intro; discriminate].
  cbv zeta.
  match goal with
  | |- context [fold_left (apply_attack ?t0 ?l0 ?s0) A ?acc0] =>
      pose proof (attack_fold_inactive t0 l0 s0 A acc0) as HF;
      destruct (fold_left (apply_attack t0 l0 s0) A acc0) as [[[act ms] sl] ss]
  end.
  destruct (evaluate _ _) as [? ?].
  destruct (decide _ _ _ _ _ _ _) as [? ?].
  destruct (safe_mode_override _ _ _) as [[[[? ?] ?] ?] ?].
  destruct (power_balance _ _ _ _ _ _) as [[[? ?] ?] ?].
  intros E; injection E as Er Es; subst r sim'.
  cbn [r_attack_active r_sensed_load_kw r_load_kw r_sensed_solar_kw r_solar_kw].
  intros Ha. subst act. specialize (HF eq_refl). injection HF as _ -> ->. split; reflexivity.
Qed.

(** A step with no active attack records the true load and the clamped
    solar output as what the controller sensed. *)
Theorem run_unattacked_steps_sense_truth sim L S A rs fin :
  run sim L S A = inr (rs, fin) ->
  Forall (fun r => r_attack_active r = false ->
                   r_sensed_load_kw r = r_load_kw r /\ r_sensed_solar_kw r = r_solar_kw r) rs.
Proof.
  unfold run. apply (run_loop_invariant (fun _ => True)); [|exact I].
  intros t s r s' _ Eb. split; [|exact I].
  exact (step_body_no_attack L S A t s r s' Eb).
Qed.

Lemma run_unattacked_steps_sense_truth_witness :
  match run sample_sim [10; 200; 400] [100; 0; 0] [soc_spoof_attack] with
  | inr (rs, _) => Forall (fun r => r_attack_active r = false ->
                     r_sensed_load_kw r = r_load_kw r /\ r_sensed_solar_kw r = r_solar_kw r) rs
  | inl _ => False
  end.
Proof.
  destruct (run sample_sim [10; 200; 400] [100; 0; 0] [soc_spoof_attack])
    as [e|[rs fin]] eqn:E.
  - vm_compute in E. discriminate E.
  - exact (run_unattacked_steps_sense_truth sample_sim [10; 200; 400] [100; 0; 0]
             [soc_spoof_attack] rs fin E).
Defined.

(** A completed loop has one record per index, each satisfying what every
    completed body gives. *)
Lemma run_loop_forall2 (P : nat -> StepRecord -> Prop) L Sp A :
  (forall t sim r sim', step_body L Sp A t sim = inr (r, sim') -> P t r) ->
  forall ts sim rs fin, run_loop L Sp A ts sim = inr (rs, fin) -> Forall2 P ts rs.
Proof.
  intros Hstep ts. induction ts as [|t ts IH]; intros sim rs fin E; cbn [run_loop] in E.
  - injection E as <- _. constructor.
  - unfold step in E.
    destruct (step_body L Sp A t sim) as [e|[r sim']] eqn:Eb; [discriminate|].
    destruct (check _ _ _ _ _); [discriminate|].
    destruct (run_loop L Sp A ts sim') as [e|[rs' fin']] eqn:Er; [discriminate|].
    injection E as <- _.
    constructor; [exact (Hstep t sim r sim' Eb) | exact (IH sim' rs' fin' Er)].
Qed.

Lemma step_body_index L Sp A t sim r sim' :
  step_body L Sp A t sim = inr (r, sim') ->
  nth_error L t = Some (r_load_kw r) /\ r_time r = Z.of_nat t /\ nth_error Sp t <> None.
Proof.
  unfold step_body.
  destruct (nth_error L t) as [tl|] eqn:EL; [|intro; discriminate].
  destruct (nth_error Sp t) as [sr|] eqn:ES; [|intro; discriminate].
  cbv zeta.
  destruct (fold_left _ _ _) as [[[? ?] ?] ?].
  destruct (evaluate _ _) as [? ?].
  destruct (decide _ _ _ _ _ _ _) as [? ?].
  destruct (safe_mode_override _ _ _) as [[[[? ?] ?] ?] ?].
  destruct (power_balance _ _ _ _ _ _) as [[[? ?] ?] ?].
  intros E; injection E as Er Es; subst r sim'.
  cbn [r_load_kw r_time]. split; [reflexivity | split; [reflexivity | discriminate]].
Qed.

Lemma skipn_nth_error {X} (l : list X) k x :
  nth_error l k = Some x -> skipn k l = x :: skipn (Datatypes.S k) l.
Proof.
  revert k. induction l as [|y l IH]; intros k H; [destruct k; discriminate H|].
  destruct k as [|k]; cbn in H |- *; [injection H as ->; reflexivity | exact (IH k H)].
Qed.

Lemma skipn_length_all {X} (l : list X) : skipn (length l) l = [].
Proof. induction l; [reflexivity | exact IHl]. Qed.

Lemma forall2_seq_loads (L : list Q) (rs : list StepRecord) n : forall k,
  Forall2 (fun t r => nth_error L t = Some (r_load_kw r)) (seq k n) rs ->
  (k + n)%nat = length L -> map r_load_kw rs = skipn k L.
Proof.
  revert rs. induction n as [|n IH]; intros rs k H Hl; cbn [seq] in H; inversion H; subst.
  - rewrite Nat.add_0_r in Hl. rewrite Hl. symmetry. apply skipn_length_all.
  - cbn [map]. rewrite (skipn_nth_error L k (r_load_kw y) H2).
    f_equal. apply IH; [exact H4 | lia].
Qed.

Lemma forall2_map_times (ts : list nat) (rs : list StepRecord) :
  Forall2 (fun t r => r_time r = Z.of_nat t) ts rs -> map r_time rs = map Z.of_nat ts.
Proof. induction 1; cbn [map]; [reflexivity | f_equal; assumption]. Qed.

(** A run that completes records the steps in order, step [t] at time [t],
    each with the load profile's value: the recorded times are
    [0 .. len(load_profile) - 1] and the recorded loads are the profile. *)
Theorem run_records_profile_in_order sim L Sp A rs fin :
  run sim L Sp A = inr (rs, fin) ->
  map r_time rs = map Z.of_nat (seq 0 (length L)) /\ map r_load_kw rs = L.
Proof.
  unfold run. intros E.
  pose proof (run_loop_forall2 _ L Sp A (step_body_index L Sp A) _ sim rs fin E) as HF.
  split.
  - apply forall2_map_times. eapply Forall2_impl; [|exact HF]. cbv beta. tauto.
  - change (map r_load_kw rs = skipn 0 L).
    apply (forall2_seq_loads L rs (length L) 0); [|reflexivity].
    eapply Forall2_impl; [|exact HF]. cbv beta. tauto.
Qed.

Lemma run_records_profile_in_order_witness :
  match run sample_sim [10; 200; 400] [100; 0; 0] [] with
  | inr (rs, _) => map r_time rs = map Z.of_nat (seq 0 3) /\ map r_load_kw rs = [10; 200; 400]
  | inl _ => False
  end.
Proof.
  destruct (run sample_sim [10; 200; 400] [100; 0; 0] []) as [e|[rs fin]] eqn:E.
  - vm_compute in E. discriminate E.
  - exact (run_records_profile_in_order sample_sim [10; 200; 400] [100; 0; 0] [] rs fin E).
Defined.

Lemma forall2_in_l {X Y} (P : X -> Y -> Prop) xs ys x :
  Forall2 P xs ys -> In x xs -> exists y, P x y.
Proof.
  induction 1 as [|a b xs' ys' Hab _ IH]; [intros []|].
  intros [->|Hin]; [exists b; exact Hab | exact (IH Hin)].
Qed.

(** A solar profile shorter than the load profile makes the run fail:
    [run] indexes it at every step of the load profile. *)
Theorem run_short_solar_profile_fails sim L Sp A :
  (length Sp < length L)%nat -> exists e, run sim L Sp A = inl e.
Proof.
  intros Hlen. destruct (run sim L Sp A) as [e|[rs fin]] eqn:E; [exists e; reflexivity|].
  exfalso. unfold run in E.
  pose proof (run_loop_forall2 _ L Sp A (step_body_index L Sp A) _ sim rs fin E) as HF.
  destruct (forall2_in_l _ _ _ (length Sp) HF) as [r (_ & _ & Hn)].
  - apply in_seq. lia.
  - apply Hn, nth_error_None. lia.
Qed.

Lemma run_short_solar_profile_fails_witness :
  exists e, run sample_sim [10; 200; 400] [100; 0] [] = inl e.
Proof.
  apply run_short_solar_profile_fails. simpl. lia.
Defined.

Lemma step_body_forecast L Sp A t sim r sim' :
  step_body L Sp A t sim = inr (r, sim') ->
  sim_forecaster sim' = sim_forecaster sim /\
  length (sim_history sim') = Datatypes.S (length (sim_history sim)) /\
  r_time r = Z.of_nat t /\
  (r_ai_forecast r = true ->
   sim_forecaster sim <> None /\ (24 <= Datatypes.S (length (sim_history sim)))%nat).
Proof.
  open_step_body.
  destruct (power_balance _ _ _ _ _ _) as [[[? ?] ?] ?].
  destruct (sim_forecaster sim) as [f|] eqn:Ef;
    [destruct (24 <=? _)%nat eqn:E24; [apply Nat.leb_le in E24|] |];
    intros E; injection E as Er Es; subst r sim';
    cbn [sim_forecaster sim_history r_time r_ai_forecast];
    (split; [reflexivity|]); (split; [rewrite length_app; cbn [length]; lia|]);
    (split; [reflexivity|]); intros H; try discriminate H.
  split; [intros Hn; discriminate Hn|].
  rewrite length_app in E24. cbn [length] in E24. lia.
Qed.

Lemma run_loop_forecast L Sp A F0 H0 n : forall k sim rs fin,
  sim_forecaster sim = F0 -> length (sim_history sim) = (H0 + k)%nat ->
  run_loop L Sp A (seq k n) sim = inr (rs, fin) ->
  Forall (fun r => r_ai_forecast r = true ->
                   F0 <> None /\ (23 <= Z.of_nat H0 + r_time r)%Z) rs.
Proof.
  induction n as [|n IH]; intros k sim rs fin HF HH E; cbn [seq run_loop] in E.
  - injection E as <- _. constructor.
  - unfold step in E.
    destruct (step_body L Sp A k sim) as [e|[r sim']] eqn:Eb; [discriminate|].
    destruct (check _ _ _ _ _); [discriminate|].
    destruct (run_loop L Sp A (seq (Datatypes.S k) n) sim') as [e|[rs' fin']] eqn:Er;
      [discriminate|].
    injection E as <- _.
    destruct (step_body_forecast L Sp A k sim r sim' Eb) as (HF' & HH' & Ht & Ha).
    constructor.
    + intros Hr. destruct (Ha Hr) as [Hn Hl]. split; [congruence|]. rewrite Ht. lia.
    + apply (IH (Datatypes.S k) sim' rs' fin'); [congruence | lia | exact Er].
Qed.

(** The AI forecast is only used once the history holds 24 samples: in a
    run that completes, a step with [ai_forecast] true has a forecaster and
    comes at time [t] with [len(history) + t >= 23], [history] being the
    simulator's history at the start of the run. *)
Theorem run_ai_forecast_needs_history sim L Sp A rs fin :
  run sim L Sp A = inr (rs, fin) ->
  Forall (fun r => r_ai_forecast r = true ->
                   sim_forecaster sim <> None /\
                   (23 <= Z.of_nat (length (sim_history sim)) + r_time r)%Z) rs.
Proof.
  unfold run. intros E.
  apply (run_loop_forecast L Sp A _ _ (length L) 0 sim rs fin); [reflexivity | lia | exact E].
Qed.

(** A simulator with a forecaster that always predicts 100 kW. *)
Definition forecast_sim : Simulator :=
  new_simulator 900 (mkBattery 100 (95 # 100) 50 50) (mkGenerator 2000 false)
    (Some (fun _ => [100])).

Lemma run_ai_forecast_needs_history_witness :
  match run forecast_sim (repeat 10 25) (repeat 100 25) [] with
  | inr (rs, _) => Forall (fun r => r_ai_forecast r = true ->
                     sim_forecaster forecast_sim <> None /\
                     (23 <= Z.of_nat (length (sim_history forecast_sim)) + r_time r)%Z) rs
  | inl _ => False
  end.
Proof.
  destruct (run forecast_sim (repeat 10 25) (repeat 100 25) []) as [e|[rs fin]] eqn:E.
  - vm_compute in E. discriminate E.
  - exact (run_ai_forecast_needs_history forecast_sim _ _ [] rs fin E).
Defined.

Lemma decide_ai_triggered st solar load bat fc gen cyb :
  ai_triggered_of (reason (snd (decide st solar load bat fc gen cyb))) = true ->
  cyb = false /\ exists x l, fc = Some (x :: l).
Proof.
  decide_cases cyb fc bat gen; cbn [snd reason]; unfold _safe_mode_action;
    cbn [reason]; intros H; try (vm_compute in H; discriminate H).
  split; [reflexivity|].
  destruct fc as [[|x l]|]; try discriminate Epred. exists x, l. reflexivity.
Qed.

Lemma step_body_ai_triggered L Sp A t sim r sim' :
  step_body L Sp A t sim = inr (r, sim') ->
  r_ai_triggered r = true -> r_ai_forecast r = true /\ r_cyber_alert r = false.
Proof.
  unfold step_body.
  destruct (nth_error L t) as [tl|]; [|intro; discriminate].
  destruct (nth_error Sp t) as [sr|]; [|intro; discriminate].
  cbv zeta.
  destruct (fold_left _ _ _) as [[[? ?] ?] ?].
  destruct (evaluate _ _) as [ca cy'].
  match goal with
  | |- context [decide ?st ?so ?lo ?ba ?fc ?ge ?cy] =>
      pose proof (decide_ai_triggered st so lo ba fc ge cy) as HA;
      destruct (decide st so lo ba fc ge cy) as [s d]
  end.
  cbn [snd] in HA.
  destruct (safe_mode_override _ _ _) as [[[[? ?] ?] ?] ?].
  destruct (power_balance _ _ _ _ _ _) as [[[? ?] ?] ?].
  destruct (ai_triggered_of (reason d)) eqn:Et.
  - destruct (HA eq_refl) as [Hc (x & l & Hfc)]. rewrite Hfc, Hc.
    intros E; injection E as Er Es; subst r sim'.
    cbn [r_ai_triggered r_ai_forecast r_cyber_alert].
    intros _. split; reflexivity.
  - intros E; injection E as Er Es; subst r sim'.
    cbn [r_ai_triggered]. intros H; discriminate H.
Qed.

(** A step is marked [ai_triggered] only when the controller took the
    predictive branch: a forecast was available at that step and the
    detector's alert was not active. *)
Theorem run_ai_trigger_needs_forecast sim L Sp A rs fin :
  run sim L Sp A = inr (rs, fin) ->
  Forall (fun r => r_ai_triggered r = true ->
                   r_ai_forecast r = true /\ r_cyber_alert r = false) rs.
Proof.
  unfold run. apply (run_loop_invariant (fun _ => True)); [|exact I].
  intros t s r s' _ Eb. split; [|exact I].
  exact (step_body_ai_triggered L Sp A t s r s' Eb).
Qed.

Lemma run_ai_trigger_needs_forecast_witness :
  match run forecast_sim (repeat 10 25) (repeat 100 25) [] with
  | inr (rs, _) => Forall (fun r => r_ai_triggered r = true ->
                     r_ai_forecast r = true /\ r_cyber_alert r = false) rs
  | inl _ => False
  end.
Proof.
  destruct (run forecast_sim (repeat 10 25) (repeat 100 25) []) as [e|[rs fin]] eqn:E.
  - vm_compute in E. discriminate E.
  - exact (run_ai_trigger_needs_forecast forecast_sim _ _ [] rs fin E).
Defined.

Lemma step_body_flags L Sp A t sim r sim' :
  step_body L Sp A t sim = inr (r, sim') ->
  r_unsafe r = qlt (r_battery_soc r) (20 # 100) /\
  r_validator_ok r = validate_phase5 (r_blackout r) (r_critical_served r) (r_battery_soc r).
Proof.
  open_step_body.
  destruct (power_balance _ _ _ _ _ _) as [[[? ?] ?] ?].
  intros E; injection E as Er Es; subst r sim'. split; reflexivity.
Qed.

(** In every run that completes from a well-formed battery (positive
    capacity, non-negative charge limit) at soc at least 0.30, no step is
    flagged [unsafe], and [validator_ok] is exactly "no blackout and the
    critical load served". *)
Theorem run_never_unsafe sim L Sp A rs fin :
  0 < capacity (sim_battery sim) -> 0 <= max_charge_kw (sim_battery sim) ->
  30 # 100 <= soc (sim_battery sim) ->
  run sim L Sp A = inr (rs, fin) ->
  Forall (fun r => r_unsafe r = false /\
                   r_validator_ok r = (negb (r_blackout r) && r_critical_served r)%bool) rs.
Proof.
  intros Hc Hm Hs. unfold run.
  apply (run_loop_invariant (fun s => battery_ok (sim_battery s))).
  - intros t s r s' HI Eb.
    destruct (step_body_battery_ok L Sp A t s r s' HI Eb) as [Hsoc HI'].
    destruct (step_body_flags L Sp A t s r s' Eb) as [Hu Hv].
    assert (Hq : qlt (r_battery_soc r) (20 # 100) = false) by (apply qlt_false; lra).
    split; [|exact HI'].
    rewrite Hu, Hv, Hq. unfold validate_phase5. rewrite Hq.
    split; [reflexivity|].
    destruct (r_blackout r), (r_critical_served r); reflexivity.
  - split; [|split]; assumption.
Qed.

Lemma run_never_unsafe_witness :
  match run sample_sim [10; 200; 400] [100; 0; 0] [] with
  | inr (rs, _) => Forall (fun r => r_unsafe r = false /\
                     r_validator_ok r = (negb (r_blackout r) && r_critical_served r)%bool) rs
  | inl _ => False
  end.
Proof.
  destruct (run sample_sim [10; 200; 400] [100; 0; 0] []) as [e|[rs fin]] eqn:E.
  - vm_compute in E. discriminate E.
  - apply (run_never_unsafe sample_sim [10; 200; 400] [100; 0; 0] [] rs fin);
      [simpl; lra | simpl; lra | simpl; lra | exact E].
Defined.

Lemma state_value_safe st : state_value st = "SAFE_MODE" -> st = SAFE_MODE.
Proof. destruct st; intros H; vm_compute in H; first [discriminate H | reflexivity]. Qed.

Lemma decide_nocyber_not_safe st solar load bat fc gen cyb :
  cyb = false -> st <> SAFE_MODE ->
  fst (decide st solar load bat fc gen cyb) <> SAFE_MODE /\
  state (snd (decide st solar load bat fc gen cyb)) <> "SAFE_MODE".
Proof.
  intros Hc Hst. decide_cases cyb fc bat gen; [discriminate Hc | ..];
    cbn [fst snd state];
    (split; [first [exact Hst | discriminate] |
             intros H; apply state_value_safe in H; first [exact (Hst H) | discriminate H]]).
Qed.

Lemma step_body_safe_state L Sp A t sim r sim' :
  (sim_controller sim = SAFE_MODE -> alert_active (sim_cyber sim) = true) ->
  step_body L Sp A t sim = inr (r, sim') ->
  (r_state r = "SAFE_MODE" <-> r_cyber_alert r = true) /\
  (sim_controller sim' = SAFE_MODE -> alert_active (sim_cyber sim') = true).
Proof.
  intros HI. unfold step_body.
  destruct (nth_error L t) as [tl|]; [|intro; discriminate].
  destruct (nth_error Sp t) as [sr|]; [|intro; discriminate].
  cbv zeta.
  destruct (fold_left _ _ _) as [[[? ?] ?] ?].
  match goal with
  | |- context [evaluate ?m ?f] =>
      pose proof (evaluate_returns_alert m f) as Hr;
      pose proof (evaluate_keeps_alert m f) as Hk;
      destruct (evaluate m f) as [ca cy']
  end.
  cbn [fst snd] in Hr, Hk.
  destruct ca.
  - unfold decide at 1.
    destruct (safe_mode_override true _ _) as [[[[gc ds] l] ub] ug] eqn:Ho.
    destruct (override_cyber _ _ _ _ _ _ _ Ho) as (_ & -> & _).
    destruct (power_balance _ _ _ _ _ _) as [[[? ?] ?] ?].
    intros E; injection E as Er Es; subst r sim'.
    cbn [r_state r_cyber_alert sim_controller sim_cyber].
    split; [split; reflexivity | intros _; symmetry; exact Hr].
  - assert (Hst : sim_controller sim <> SAFE_MODE).
    { intros H. specialize (Hk (HI H)). congruence. }
    match goal with
    | |- context [decide ?st ?so ?lo ?ba ?fc ?ge false] =>
        pose proof (decide_nocyber_not_safe st so lo ba fc ge false eq_refl Hst) as HN;
        destruct (decide st so lo ba fc ge false) as [s d]
    end.
    cbn [fst snd] in HN. destruct HN as [HN1 HN2].
    destruct (safe_mode_override false _ _) as [[[[gc ds] l] ub] ug] eqn:Ho.
    destruct (override_no_cyber _ _ _ _ _ _ _ Ho) as (_ & -> & _).
    destruct (power_balance _ _ _ _ _ _) as [[[? ?] ?] ?].
    intros E; injection E as Er Es; subst r sim'.
    cbn [r_state r_cyber_alert sim_controller sim_cyber].
    split; [split; intros H; [exfalso; exact (HN2 H) | discriminate H]
           | intros H; exfalso; exact (HN1 H)].
Qed.

(** In a run that completes from a simulator whose controller is not in
    SAFE_MODE unless the detector's alert is already latched (as
    [new_simulator] builds it), a step reports state SAFE_MODE exactly when
    the detector's alert is active at that step. *)
Theorem run_safe_mode_iff_alert sim L Sp A rs fin :
  (sim_controller sim = SAFE_MODE -> alert_active (sim_cyber sim) = true) ->
  run sim L Sp A = inr (rs, fin) ->
  Forall (fun r => r_state r = "SAFE_MODE" <-> r_cyber_alert r = true) rs.
Proof.
  intros HI. unfold run.
  apply (run_loop_invariant
           (fun s => sim_controller s = SAFE_MODE -> alert_active (sim_cyber s) = true));
    [|exact HI].
  intros t s r s' HIs Eb. exact (step_body_safe_state L Sp A t s r s' HIs Eb).
Qed.

Lemma run_safe_mode_iff_alert_witness :
  match run sample_sim [10; 200; 400] [100; 0; 0] [soc_spoof_attack] with
  | inr (rs, _) => Forall (fun r => r_state r = "SAFE_MODE" <-> r_cyber_alert r = true) rs
  | inl _ => False
  end.
Proof.
  destruct (run sample_sim [10; 200; 400] [100; 0; 0] [soc_spoof_attack])
    as [e|[rs fin]] eqn:E.
  - vm_compute in E. discriminate E.
  - apply (run_safe_mode_iff_alert sample_sim [10; 200; 400] [100; 0; 0]
             [soc_spoof_attack] rs fin); [intros H; discriminate H | exact E].
Defined.
